(** * fractal-demo: the recursive solids and the Rule 30 automaton

    A shallow embedding of the generative code of the gallery:
    - [Cube] (the Menger sponge), [Tetrahedron] (the Sierpinski
      tetrahedron) and [Torus] (the nested tori), three recursive React
      components;
    - [Rule30Visualization], which evolves Rule 30 into an array of rows,
      and [createRule30Texture], which evolves it into an RGBA byte buffer.

    Conventions.  JavaScript integers (depths, indices, cell states) are [Z];
    the bit operators go through [ToInt32].  JavaScript numbers that carry
    lengths and coordinates are idealised as real numbers [R], so rounding
    of IEEE doubles is not part of the model.  Arrays are lists, read with
    stdpp's lookup and written with stdpp's insert; what JavaScript does out
    of range is written out at each use.  A solid is modelled by the render
    function of its component and by the element tree that exists once
    every reveal timer has fired; the animation state ([scale], rotation) is
    left out.  Allocation limits of the engine
    other than the negative-length check are not modelled. *)

From Stdlib Require Import ZArith List Bool Lia String Reals Lra.
From stdpp Require Import base list sorting.
Import ListNotations.

#[local] Set Warnings "-register-all".
Local Open Scope Z_scope.

(** ** JavaScript primitives used by the components *)

Module JS.

(** Completion of a call: a value, or one of the two exceptions the
    modelled code can raise. *)
Inductive result (A : Type) : Type :=
| Ok (a : A)
| RangeError
| TypeError.
Arguments Ok {A} a.
Arguments RangeError {A}.
Arguments TypeError {A}.

Definition bind {A B : Type} (r : result A) (k : A -> result B) : result B :=
  match r with
  | Ok a => k a
  | RangeError => RangeError
  | TypeError => TypeError
  end.

(** [a[i]] on an array or typed array: [undefined] ([None]) out of range. *)
Definition index {A : Type} (a : list A) (i : Z) : option A :=
  if i <? 0 then None else a !! Z.to_nat i.

(** [ToInt32]; [undefined] converts to 0. *)
Definition wrap32 (z : Z) : Z := (z + 2 ^ 31) mod 2 ^ 32 - 2 ^ 31.

Definition ToInt32 (v : option Z) : Z :=
  match v with
  | Some z => wrap32 z
  | None => 0
  end.

(** [a << n] and [a | b]. *)
Definition shl (a : option Z) (n : Z) : Z :=
  wrap32 (Z.shiftl (ToInt32 a) (n mod 32)).

Definition bor (a b : option Z) : Z := Z.lor (ToInt32 a) (ToInt32 b).

(** [v > 0]; [undefined > 0] is false. *)
Definition gt0 (v : option Z) : bool :=
  match v with
  | Some z => 0 <? z
  | None => false
  end.

(** [Array(n).fill(v)]: a negative length raises. *)
Definition Array_fill (n v : Z) : result (list Z) :=
  if n <? 0 then RangeError else Ok (replicate (Z.to_nat n) v).

(** [a[i] = v] on an ordinary array.  In range it overwrites; at or past
    the end the array grows, the cells skipped over being holes, which read
    as [undefined] and count as 0 in the rule (the only such write in the
    components is [initialState[0] = 1] on an empty array, which skips
    nothing); a negative index is a plain property and leaves the elements
    alone. *)
Definition array_set (a : list Z) (i v : Z) : list Z :=
  if i <? 0 then a
  else if i <? Z.of_nat (length a) then <[Z.to_nat i := v]> a
  else a ++ replicate (Z.to_nat i - length a) 0 ++ [v].

(** [new Uint8Array(n)]: zero-filled; a negative length raises. *)
Definition Uint8Array_new (n : Z) : result (list Z) :=
  if n <? 0 then RangeError else Ok (replicate (Z.to_nat n) 0).

(** [data[i] = v] on a [Uint8Array]: the value is reduced modulo 256 and
    a write outside the buffer is ignored. *)
Definition u8_set (data : list Z) (i v : Z) : list Z :=
  if i <? 0 then data else <[Z.to_nat i := v mod 256]> data.

(** [for (let i = start; ...; i++)] run for [k] iterations. *)
Fixpoint iter_from {S : Type} (k : nat) (i : Z) (body : Z -> S -> S) (s : S) : S :=
  match k with
  | O => s
  | Datatypes.S k' => iter_from k' (i + 1) body (body i s)
  end.

(** [for (let i = 0; i < n; i++) s = body(i, s)]. *)
Definition for_lt {S : Type} (n : Z) (body : Z -> S -> S) (s : S) : S :=
  iter_from (Z.to_nat n) 0 body s.

(** [for (let i = 0; i < n; i += 4) s = body(i, s)]. *)
Definition for_lt_step4 {S : Type} (n : Z) (body : Z -> S -> S) (s : S) : S :=
  for_lt ((n + 3) / 4) (fun k => body (4 * k)) s.

End JS.

Notation "'let*' x ':=' e 'in' k" :=
  (JS.bind e (fun x => k))
  (at level 10, x name, e at level 100, k at level 200).

(** ** Rule 30 as an array of rows (WolframGameOfLife.tsx, instanced version)

    [Rule30Visualization] fixes [width = 240] and [maxGenerations = 120];
    they are parameters here so that the loop can be stated for any grid. *)

Module Rule30Visualization.

Definition width : Z := 240.
Definition maxGenerations : Z := 120.

(** [(left << 2) | (center << 1) | right] *)
Definition pattern (left center right : option Z) : Z :=
  JS.bor (Some (JS.bor (Some (JS.shl left 2)) (Some (JS.shl center 1)))) right.

(** [(pattern === 1 || pattern === 2 || pattern === 3 || pattern === 4) ? 1 : 0] *)
Definition rule (p : Z) : Z :=
  if (p =? 1) || (p =? 2) || (p =? 3) || (p =? 4) then 1 else 0.

(** The value stored in [nextGen[j]]. *)
Definition nextCell (width : Z) (prevGen : list Z) (j : Z) : Z :=
  let left := if j =? 0 then Some 0 else JS.index prevGen (j - 1) in
  let center := JS.index prevGen j in
  let right := if j =? width - 1 then Some 0 else JS.index prevGen (j + 1) in
  rule (pattern left center right).

(** The inner loop: one generation from the previous one. *)
Definition nextGen (width : Z) (prevGen : list Z) : JS.result (list Z) :=
  let* fresh := JS.Array_fill width 0 in
  JS.Ok (JS.for_lt width
           (fun j nextGen => JS.array_set nextGen j (nextCell width prevGen j))
           fresh).

(** A single live cell in the middle. *)
Definition initialState (width : Z) : JS.result (list Z) :=
  let* a := JS.Array_fill width 0 in
  JS.Ok (JS.array_set a (width / 2) 1).

(** The outer loop; [allGenerations[i]] would make [prevGen[j]] raise if
    it were [undefined]. *)
Definition allGenerations (width maxGenerations : Z) : JS.result (list (list Z)) :=
  let* initialState := initialState width in
  JS.for_lt (maxGenerations - 1)
    (fun i acc =>
       let* allGenerations := acc in
       let* prevGen :=
         match JS.index allGenerations i with
         | Some g => JS.Ok g
         | None => JS.TypeError
         end in
       let* nextGen := nextGen width prevGen in
       JS.Ok (allGenerations ++ [nextGen]))
    (JS.Ok [initialState]).

(** [generations[row][col] === 1], the test that draws a cell. *)
Definition live (generations : list (list Z)) (row col : Z) : Prop :=
  exists gen, JS.index generations row = Some gen /\ JS.index gen col = Some 1.

End Rule30Visualization.

(** ** Rule 30 as a texture (WolframGameOfLife.tsx, shader version) *)

Module Rule30Texture.

Record DataTexture : Type := mkDataTexture {
  image_data : list Z;
  image_width : Z;
  image_height : Z
}.

(** [data[k] > 0 ? 1 : 0] *)
Definition bit (data : list Z) (k : Z) : Z :=
  if JS.gt0 (JS.index data k) then 1 else 0.

Definition pattern (left center right : Z) : Z :=
  JS.bor (Some (JS.bor (Some (JS.shl (Some left) 2)) (Some (JS.shl (Some center) 1))))
         (Some right).

Definition nextState (pattern : Z) : Z :=
  if (pattern =? 1) || (pattern =? 2) || (pattern =? 3) || (pattern =? 4) then 1 else 0.

(** The body of the two nested loops at cell [(x, y)]. *)
Definition evolveCell (width : Z) (y x : Z) (data : list Z) : list Z :=
  let left := if x =? 0 then 0 else bit data ((y * width + (x - 1)) * 4) in
  let center := bit data ((y * width + x) * 4) in
  let right := if x =? width - 1 then 0 else bit data ((y * width + (x + 1)) * 4) in
  let nextState := nextState (pattern left center right) in
  let nextIndex := ((y + 1) * width + x) * 4 in
  let data := JS.u8_set data nextIndex (nextState * 255) in
  JS.u8_set data (nextIndex + 3) 255.

(** The clearing loop. *)
Definition clear (n : Z) (data : list Z) : list Z :=
  JS.for_lt_step4 n
    (fun i data =>
       let data := JS.u8_set data i 0 in
       let data := JS.u8_set data (i + 1) 0 in
       let data := JS.u8_set data (i + 2) 0 in
       JS.u8_set data (i + 3) 255)
    data.

Definition createRule30Texture (width height : Z) : JS.result DataTexture :=
  let* data := JS.Uint8Array_new (width * height * 4) in
  let data := clear (width * height * 4) data in
  let centerX := width / 2 in
  let index := (0 * width + centerX) * 4 in
  let data := JS.u8_set data index 255 in
  let data :=
    JS.for_lt (height - 1)
      (fun y data => JS.for_lt width (fun x data => evolveCell width y x data) data)
      data in
  JS.Ok (mkDataTexture data width height).

(** [CellularAutomaton] builds its texture once, 1024 by 1024. *)
Definition initialState : JS.result DataTexture := createRule30Texture 1024 1024.

(** The red byte of texel [(row, col)]. *)
Definition red (t : DataTexture) (row col : Z) : option Z :=
  JS.index (image_data t) ((row * image_width t + col) * 4).

End Rule30Texture.

(** ** The recursive solids

    Each solid is a React component that renders one mesh and, once its
    [showChildren] timer has fired, one child component per subdivision
    cell.  [Solid.unfold] is the element tree that results when every timer
    has fired: a node carries the props its component was rendered with. *)

Module Solid.

Inductive Tree (A : Type) : Type :=
| Node (a : A) (children : list (Tree A)).
Arguments Node {A} a children.

Definition root {A : Type} (t : Tree A) : A :=
  match t with Node a _ => a end.

Definition children {A : Type} (t : Tree A) : list (Tree A) :=
  match t with Node _ cs => cs end.

(** Rendering to a bounded nesting: [sub] lists the props of the child
    components of a component. *)
Fixpoint unfold {A : Type} (sub : A -> list A) (fuel : nat) (a : A) : Tree A :=
  Node a (match fuel with
          | O => []
          | S n => map (unfold sub n) (sub a)
          end).

(** Longest root-to-leaf path, counted in edges. *)
Fixpoint height {A : Type} (t : Tree A) : nat :=
  match t with
  | Node _ cs => fold_right (fun c m => Nat.max (S (height c)) m) O cs
  end.

(** [at_level k T t]: [t] is the subtree of [T] rooted at a node [k]
    levels below the root of [T]. *)
Inductive at_level {A : Type} : nat -> Tree A -> Tree A -> Prop :=
| at_level_root t : at_level O t t
| at_level_child k a cs c t :
    In c cs -> at_level k c t -> at_level (S k) (Node a cs) t.


(** [DEPTH_COLORS[i]]-style values combined with [||]: [undefined] and the
    empty string are falsy. *)
Definition truthy (v : option string) : bool :=
  match v with
  | Some s => negb (String.eqb s EmptyString)
  | None => false
  end.

Definition or_else (v w : option string) : option string :=
  if truthy v then v else w.

End Solid.

Definition Vec3 : Type := (R * R * R)%type.

Definition vadd (u v : Vec3) : Vec3 :=
  let '(u0, u1, u2) := u in
  let '(v0, v1, v2) := v in
  (u0 + v0, u1 + v1, u2 + v2)%R.

Definition vscale (v : Vec3) (k : R) : Vec3 :=
  let '(v0, v1, v2) := v in (v0 * k, v1 * k, v2 * k)%R.

(** The subdivision grid and the colour index as the specification words
    them; the components are compared with these. *)
Module Design.

(** The cells [(x, y, z)] of [{-1, 0, 1}^3] with [|x| + |y| + |z| > 1]. *)
Definition kept_cells : list (Z * Z * Z) :=
  List.filter (fun '(x, y, z) => 1 <? Z.abs x + Z.abs y + Z.abs z)
    (list_prod (list_prod [-1; 0; 1] [-1; 0; 1]) [-1; 0; 1]).

Definition clamp (v lo hi : Z) : Z := Z.max lo (Z.min v hi).

(** [clamp(maxDepth - depthRemaining, 0, paletteSize - 1)] *)
Definition colorIndex (maxDepth depthRemaining paletteSize : Z) : Z :=
  clamp (maxDepth - depthRemaining) 0 (paletteSize - 1).

End Design.

(** *** MengerSponge: [Cube] *)

Module Cube.

Definition DEPTH_COLORS : list string :=
  ["#ff5555"; "#55ff55"; "#5555ff"; "#ffff55"; "#ff55ff"]%string.

Record Props : Type := mkProps {
  position : Vec3;
  size : R;
  depth : Z;
  delay : Z
}.

(** The default props of [<Cube />]. *)
Definition defaults : Props :=
  {| position := (0, 0, 0)%R; size := 3%R; depth := 3; delay := 0 |}.

(** The child cube pushed for grid cell [(x, y, z)]. *)
Definition child (p : Props) (cell : Z * Z * Z) : Props :=
  let '(x, y, z) := cell in
  let '(p0, p1, p2) := position p in
  let newSize := (size p / 3)%R in
  let offset := (size p / 3)%R in
  {| position := (p0 + IZR x * offset, p1 + IZR y * offset, p2 + IZR z * offset)%R;
     size := newSize;
     depth := depth p - 1;
     delay := 200 |}.

(** [for (let x = -1; x <= 1; x++)] *)
Definition axis : list Z := [-1; 0; 1].

(** The three nested loops building [childCubes]. *)
Definition childCubes (showChildren : bool) (p : Props) : list Props :=
  if (0 <? depth p) && showChildren then
    flat_map (fun x =>
      flat_map (fun y =>
        flat_map (fun z =>
          let sumOfAbs := Z.abs x + Z.abs y + Z.abs z in
          if 1 <? sumOfAbs then [child p (x, y, z)] else [])
        axis) axis) axis
  else [].

Definition colorIndex (p : Props) : Z :=
  Z.min (4 - depth p) (Z.of_nat (length DEPTH_COLORS) - 1).

Definition color (p : Props) : option string :=
  JS.index DEPTH_COLORS (colorIndex p).

(** What one render returns: nothing before the [show] timer, then the
    group with its wireframe box and child elements. *)
Record Rendered : Type := mkRendered {
  group_position : Vec3;
  box_size : R;
  mesh_color : option string;
  child_elements : list Props
}.

Definition Cube (show showChildren : bool) (p : Props) : option Rendered :=
  if negb show then None
  else Some {| group_position := position p;
               box_size := size p;
               mesh_color := color p;
               child_elements := childCubes showChildren p |}.

(** The child elements of a cube whose two timers have fired. *)
Definition elements (p : Props) : list Props :=
  match Cube true true p with
  | Some rendered => child_elements rendered
  | None => []
  end.

(** The sponge once every timer has fired.  A cube of depth [d] nests at
    most [d] levels of children, which bounds the rendering. *)
Definition tree (p : Props) : Solid.Tree Props :=
  Solid.unfold elements (Z.to_nat (depth p)) p.

End Cube.

(** *** SierpinskiTetrahedron: [Tetrahedron] *)

Module Tetrahedron.

Definition DEPTH_COLORS : list string :=
  ["#ff3333"; "#33ff33"; "#3333ff"; "#ffff33"; "#ff33ff"; "#33ffff"]%string.

Record Props : Type := mkProps {
  position : Vec3;
  size : R;
  depth : Z;
  delay : Z;
  color : option string
}.

Definition defaults : Props :=
  {| position := (0, 0, 0)%R; size := 5%R; depth := 4; delay := 0; color := None |}.

(** [DEPTH_COLORS[k % DEPTH_COLORS.length]]; [%] truncates towards zero. *)
Definition palette (k : Z) : option string :=
  JS.index DEPTH_COLORS (Z.rem k (Z.of_nat (length DEPTH_COLORS))).

Definition vertices (p : Props) : list Vec3 :=
  let '(p0, p1, p2) := position p in
  let halfSize := (size p / 2)%R in
  [ (p0, p1 + halfSize, p2);
    (p0 - halfSize, p1 - halfSize, p2 - halfSize);
    (p0 + halfSize, p1 - halfSize, p2 - halfSize);
    (p0, p1 - halfSize, p2 + halfSize) ]%R.

(** The child pushed at iteration [i] ([vertices] has four entries and
    [i < 4], so [vertices[i]] is always defined). *)
Definition child (p : Props) (i : Z) : Props :=
  let childSize := (size p / 2)%R in
  {| position := default (0, 0, 0)%R (JS.index (vertices p) i);
     size := childSize;
     depth := depth p - 1;
     delay := 300;
     color := palette (5 - depth p + i) |}.

Definition childTetrahedra (showChildren : bool) (p : Props) : list Props :=
  if (0 <? depth p) && showChildren then
    JS.for_lt 4 (fun i acc => acc ++ [child p i]) []
  else [].

(** [color || DEPTH_COLORS[(5 - depth) % DEPTH_COLORS.length]] *)
Definition displayColor (p : Props) : option string :=
  Solid.or_else (color p) (palette (5 - depth p)).

Record Rendered : Type := mkRendered {
  group_position : Vec3;
  radius : R;
  mesh_color : option string;
  child_elements : list Props
}.

Definition Tetrahedron (show showChildren : bool) (p : Props) : option Rendered :=
  if negb show then None
  else Some {| group_position := position p;
               radius := size p;
               mesh_color := displayColor p;
               child_elements := childTetrahedra showChildren p |}.

Definition elements (p : Props) : list Props :=
  match Tetrahedron true true p with
  | Some rendered => child_elements rendered
  | None => []
  end.

Definition tree (p : Props) : Solid.Tree Props :=
  Solid.unfold elements (Z.to_nat (depth p)) p.

End Tetrahedron.

(** *** TorusFractal: [Torus]

    A child torus is rendered at the origin of a group; the group carries
    the position on the parent's major circle.  The group's rotation prop
    is not part of the model. *)

Module Torus.

Definition DEPTH_COLORS : list string :=
  ["#ff0000"; "#00ff00"; "#0000ff"; "#ffff00"; "#ff00ff"]%string.

Record Props : Type := mkProps {
  position : Vec3;
  radius : R;
  tubeRadius : R;
  depth : Z;
  delay : Z
}.

Definition defaults : Props :=
  {| position := (0, 0, 0)%R; radius := 4%R; tubeRadius := 2%R; depth := 6; delay := 0 |}.

Record Child : Type := mkChild {
  angle : R;
  group_position : Vec3;
  props : Props
}.

(** The group pushed at iteration [i]. *)
Definition child (p : Props) (i : Z) : Child :=
  let '(p0, p1, p2) := position p in
  let childRadius := (tubeRadius p / (PI / 2))%R in
  let childTubeRadius := (childRadius / 2)%R in
  let angle := ((IZR i * PI) / 2)%R in
  let x := (cos angle * radius p)%R in
  let y := (sin angle * radius p)%R in
  {| angle := angle;
     group_position := (p0 + x, p1 + y, p2)%R;
     props := {| position := (0, 0, 0)%R;
                 radius := childRadius;
                 tubeRadius := childTubeRadius;
                 depth := depth p - 1;
                 delay := 500 |} |}.

Definition childTori (showChildren : bool) (p : Props) : list Child :=
  if (0 <? depth p) && showChildren then
    JS.for_lt 4 (fun i acc => acc ++ [child p i]) []
  else [].

Definition colorIndex (p : Props) : Z := 4 - depth p.

(** [DEPTH_COLORS[colorIndex] || '#ffffff'] *)
Definition color (p : Props) : option string :=
  Solid.or_else (JS.index DEPTH_COLORS (colorIndex p)) (Some "#ffffff"%string).

Record Rendered : Type := mkRendered {
  mesh_position : Vec3;
  mesh_radius : R;
  mesh_tube : R;
  mesh_color : option string;
  child_elements : list Child
}.

Definition Torus (show showChildren : bool) (p : Props) : option Rendered :=
  if negb show then None
  else Some {| mesh_position := position p;
               mesh_radius := radius p;
               mesh_tube := tubeRadius p;
               mesh_color := color p;
               child_elements := childTori showChildren p |}.

(** The props of the child tori of a torus whose two timers have fired. *)
Definition elements (p : Props) : list Props :=
  match Torus true true p with
  | Some rendered => map props (child_elements rendered)
  | None => []
  end.

Definition tree (p : Props) : Solid.Tree Props :=
  Solid.unfold elements (Z.to_nat (depth p)) p.


End Torus.

(** ** The automaton of the specification

    The elementary automaton as the specification words it: an 8-entry
    truth table keyed by the 3-bit neighbourhood, a seed row with one live
    cell at [width / 2], and [cells[r][c] = RULE(cells[r-1][c-1],
    cells[r-1][c], cells[r-1][c+1])] with cells outside [[0, width)] dead.
    The two evolutions of the source are compared with it. *)

Module Automaton.

(** Rule 30: live for the patterns 1, 2, 3 and 4. *)
Definition RULE30 : list Z := [0; 1; 1; 1; 1; 0; 0; 0].

Definition RULE (table : list Z) (left center right : Z) : Z :=
  default 0 (table !! Z.to_nat (4 * left + 2 * center + right)).

(** The state of column [c] of a row, dead outside [[0, width)]. *)
Definition cell (width : Z) (row : list Z) (c : Z) : Z :=
  if (0 <=? c) && (c <? width) then default 0 (row !! Z.to_nat c) else 0.

Definition step (table : list Z) (width : Z) (row : list Z) : list Z :=
  (fun c => RULE table (cell width row (c - 1)) (cell width row c) (cell width row (c + 1)))
    <$> seqZ 0 width.

Definition seed (width : Z) : list Z :=
  <[Z.to_nat (width / 2) := 1]> (replicate (Z.to_nat width) 0).

Fixpoint row (table : list Z) (width : Z) (r : nat) : list Z :=
  match r with
  | O => seed width
  | S r' => step table width (row table width r')
  end.

(** A cell state, and a row of [width] cell states. *)
Definition bit (b : Z) : Prop := b = 0 \/ b = 1.

Definition is_row (width : Z) (row : list Z) : Prop :=
  Z.of_nat (length row) = width /\ Forall bit row.

Definition evolveCellularAutomaton (width generationCount : Z) : list (list Z) :=
  row RULE30 width <$> seq 0 (Z.to_nat generationCount).

End Automaton.

(** ** The instanced display of the grid (WolframGameOfLife.tsx)

    The second effect of [Rule30Visualization] copies the live cells of the
    rows revealed so far into an instanced mesh, and [useFrame] reveals one
    more row per frame.  An instance matrix is an identity matrix with a
    translation, so it is modelled by its translation. *)

Module Rule30Instances.

Record InstancedMesh : Type := mkInstancedMesh {
  count : Z;
  instanceMatrix : list Vec3
}.

(** [new THREE.InstancedMesh(cellGeometry, cellMaterial, totalCells)]
    followed by [instancedMesh.count = 0]: the matrix buffer is a typed
    array with room for [totalCells] matrices. *)
Definition create (totalCells : Z) : JS.result InstancedMesh :=
  if totalCells <? 0 then JS.RangeError
  else JS.Ok (mkInstancedMesh 0 (replicate (Z.to_nat totalCells) (0, 0, 0)%R)).

(** [cells.setMatrixAt(index, matrix)]: a write into the typed array,
    ignored outside the buffer. *)
Definition setMatrixAt (mesh : InstancedMesh) (index : Z) (matrix : Vec3) : InstancedMesh :=
  mkInstancedMesh (count mesh)
    (if index <? 0 then instanceMatrix mesh
     else <[Z.to_nat index := matrix]> (instanceMatrix mesh)).

(** [matrix.setPosition(posX * 0.15, posY * 0.15, 0)] with
    [posX = x - width / 2] and [posY = -y + 30]. *)
Definition cellPosition (width x y : Z) : Vec3 :=
  let posX := (IZR x - IZR width / 2)%R in
  let posY := (- IZR y + 30)%R in
  (posX * (15 / 100), posY * (15 / 100), 0)%R.

(** [gen[x] === 1] *)
Definition isLive (gen : list Z) (x : Z) : bool :=
  match JS.index gen x with
  | Some v => v =? 1
  | None => false
  end.

(** The body of the two loops at cell [(x, y)], on the running [count] and
    the mesh. *)
Definition placeCell (width : Z) (gen : list Z) (y x : Z)
    (state : Z * InstancedMesh) : Z * InstancedMesh :=
  let '(count, cells) := state in
  if isLive gen x
  then (count + 1, setMatrixAt cells count (cellPosition width x y))
  else (count, cells).

(** The effect on [frame], [cells] and [generations]; the result is the
    state of [cells] when the effect returns.  [generations[y]] is defined
    for every [y < maxGens]. *)
Definition updateCells (frame : Z) (cells : option InstancedMesh)
    (generations : list (list Z)) : option InstancedMesh :=
  match cells with
  | None => None
  | Some mesh =>
      if Z.of_nat (length generations) =? 0 then Some mesh
      else
        let width := Z.of_nat (length (default [] (JS.index generations 0))) in
        let maxGens := Z.min (frame + 1) (Z.of_nat (length generations)) in
        let '(count, cells) :=
          JS.for_lt maxGens
            (fun y state =>
               let gen := default [] (JS.index generations y) in
               JS.for_lt width (fun x state => placeCell width gen y x state) state)
            (0, mesh) in
        Some (mkInstancedMesh count (instanceMatrix cells))
  end.

(** [useFrame]: [if (frame < generations.length - 1) setFrame(prev => prev + 1)]. *)
Definition nextFrame (generations : list (list Z)) (frame : Z) : Z :=
  if frame <? Z.of_nat (length generations) - 1 then frame + 1 else frame.

(** The frame counter after [n] animation frames, from [useState(0)]. *)
Definition frameAfter (generations : list (list Z)) (n : nat) : Z :=
  Nat.iter n (nextFrame generations) 0.

(** The live cells [(row, col)] of the first [maxGens] rows, in row-major
    order: the instance list of the specification. *)
Definition liveCells (width maxGens : Z) (generations : list (list Z)) : list (Z * Z) :=
  y ← seqZ 0 maxGens;
  x ← seqZ 0 width;
  if isLive (default [] (JS.index generations y)) x then [(y, x)] else [].

(** Row-major order on cells. *)
Definition before (a b : Z * Z) : Prop :=
  a.1 < b.1 \/ (a.1 = b.1 /\ a.2 < b.2).

End Rule30Instances.

(** ** The growth animation of the solids

    The [useFrame] callbacks of [Cube], [Tetrahedron] and [Torus] share the
    line [if (show && scale < 1) setScale(prev => Math.min(prev + 0.05, 1))],
    starting from [useState(0.001)]. *)

Module Growth.

Definition initialScale : R := (1 / 1000)%R.

Definition grow (show : bool) (scale : R) : R :=
  if show then
    if Rlt_dec scale 1 then Rmin (scale + 5 / 100) 1 else scale
  else scale.

(** The scale after [n] frames of a solid that is shown. *)
Definition scaleAfter (n : nat) : R := Nat.iter n (grow true) initialScale.

End Growth.

(** ** Measures of an element tree *)

Module Scene.

(** The number of meshes of a rendered tree. *)
Fixpoint meshes {A : Type} (t : Solid.Tree A) : nat :=
  match t with
  | Solid.Node _ cs => S (fold_right (fun c n => (meshes c + n)%nat) O cs)
  end.


End Scene.

(** ** The orbital paths of the flowing lines (EnhancedIOHKVisualization)

    [createCurvePath(radius, segments, height, turns)] samples a helix arc.
    [Math.cos], [Math.sin] and [Math.PI] are the exact functions and the
    exact π here, so a coordinate of the model agrees with the source up to
    rounding only: at the last point the source has the height
    [height * Math.sin(Math.PI)], about [1.2e-16 * height], where the model
    has 0.  [segments] is an integer; for [segments = 0] the source divides
    0 by 0, which the real numbers do not model, so the properties below
    take [segments > 0]. *)

Module FlowPath.

(** The point pushed at iteration [i]. *)
Definition point (radius : R) (segments : Z) (height turns : R) (i : Z) : Vec3 :=
  let progress := (IZR i / IZR segments)%R in
  let angle := (progress * PI * 2 * turns)%R in
  let x := (cos angle * radius)%R in
  let z := (sin angle * radius)%R in
  let y := (height * sin (progress * PI))%R in
  (x, y, z).

(** [for (let i = 0; i <= segments; i++) points.push(...)] *)
Definition createCurvePath (radius : R) (segments : Z) (height turns : R) : list Vec3 :=
  JS.for_lt (segments + 1)
    (fun i points => points ++ [point radius segments height turns i]) [].

End FlowPath.

(** * Properties *)

(** ** Loops *)

Section Loops.
Context {S : Type}.

Lemma iter_from_ind (P : Z -> S -> Prop) (body : Z -> S -> S) (k : nat) :
  forall (i : Z) (s : S),
    P i s ->
    (forall j t, i <= j < i + Z.of_nat k -> P j t -> P (j + 1) (body j t)) ->
    P (i + Z.of_nat k) (JS.iter_from k i body s).
Proof.
  induction k as [|k IH]; intros i s Hs Hstep; cbn [JS.iter_from].
  - now replace (i + Z.of_nat 0) with i by lia.
  - replace (i + Z.of_nat (Datatypes.S k)) with ((i + 1) + Z.of_nat k) by lia.
    apply IH.
    + apply Hstep; [lia | exact Hs].
    + intros j t Hj. apply Hstep. lia.
Qed.

(** The invariant rule for [for (let i = 0; i < n; i++)]. *)
Lemma for_lt_ind (P : Z -> S -> Prop) (n : Z) (body : Z -> S -> S) (s : S) :
  0 <= n ->
  P 0 s ->
  (forall j t, 0 <= j < n -> P j t -> P (j + 1) (body j t)) ->
  P n (JS.for_lt n body s).
Proof.
  intros Hn H0 Hstep. unfold JS.for_lt.
  replace n with (0 + Z.of_nat (Z.to_nat n)) at 1 by lia.
  apply iter_from_ind; [exact H0|].
  intros j t Hj. apply Hstep. lia.
Qed.

(** A property kept by the body is kept by the loop, whatever the bound. *)
Lemma for_lt_preserves (P : S -> Prop) (n : Z) (body : Z -> S -> S) (s : S) :
  (forall j t, P t -> P (body j t)) -> P s -> P (JS.for_lt n body s).
Proof.
  intros Hbody. unfold JS.for_lt. generalize 0 as i. revert s.
  induction (Z.to_nat n) as [|k IH]; intros s i Hs; cbn [JS.iter_from]; auto.
Qed.


End Loops.

(** ** Array reads and writes *)

Lemma index_nonneg {A : Type} (a : list A) (i : Z) :
  0 <= i -> JS.index a i = a !! Z.to_nat i.
Proof.
  intros Hi. unfold JS.index. destruct (Z.ltb_spec i 0); [lia | reflexivity].
Qed.

Lemma length_array_set_in (a : list Z) (i v : Z) :
  0 <= i < Z.of_nat (length a) -> length (JS.array_set a i v) = length a.
Proof.
  intros Hi. unfold JS.array_set.
  destruct (Z.ltb_spec i 0); [lia|].
  destruct (Z.ltb_spec i (Z.of_nat (length a))); [|lia].
  apply length_insert.
Qed.

Lemma index_array_set_in (a : list Z) (i v k : Z) :
  0 <= i < Z.of_nat (length a) ->
  JS.index (JS.array_set a i v) k = if k =? i then Some v else JS.index a k.
Proof.
  intros Hi. unfold JS.array_set.
  destruct (Z.ltb_spec i 0); [lia|].
  destruct (Z.ltb_spec i (Z.of_nat (length a))); [|lia].
  unfold JS.index. destruct (Z.ltb_spec k 0).
  - destruct (Z.eqb_spec k i); [lia | reflexivity].
  - destruct (Z.eqb_spec k i) as [->|Hne].
    + apply list_lookup_insert_eq. lia.
    + apply list_lookup_insert_ne. lia.
Qed.

Lemma length_u8_set (data : list Z) (i v : Z) :
  length (JS.u8_set data i v) = length data.
Proof.
  unfold JS.u8_set. destruct (i <? 0); [reflexivity | apply length_insert].
Qed.

Lemma index_u8_set_eq (data : list Z) (i v : Z) :
  0 <= i < Z.of_nat (length data) ->
  JS.index (JS.u8_set data i v) i = Some (v mod 256).
Proof.
  intros Hi. unfold JS.u8_set, JS.index.
  destruct (Z.ltb_spec i 0); [lia|].
  apply list_lookup_insert_eq. lia.
Qed.

Lemma index_u8_set_ne (data : list Z) (i v k : Z) :
  k <> i -> JS.index (JS.u8_set data i v) k = JS.index data k.
Proof.
  intros Hne. unfold JS.u8_set, JS.index.
  destruct (Z.ltb_spec i 0); [reflexivity|].
  destruct (Z.ltb_spec k 0); [reflexivity|].
  apply list_lookup_insert_ne. lia.
Qed.

(** ** The reference automaton *)

Section AutomatonFacts.
Import Automaton.

Lemma cell_in_range (width : Z) (row : list Z) (c : Z) :
  is_row width row -> 0 <= c < width ->
  JS.index row c = Some (cell width row c).
Proof.
  intros [Hlen _] Hc. rewrite index_nonneg by lia. unfold cell.
  destruct (Z.leb_spec 0 c); [|lia]. destruct (Z.ltb_spec c width); [|lia].
  cbn [andb]. destruct (lookup_lt_is_Some_2 row (Z.to_nat c)) as [x ->]; [lia|].
  reflexivity.
Qed.

Lemma cell_out_of_range (width : Z) (row : list Z) (c : Z) :
  c < 0 \/ width <= c -> cell width row c = 0.
Proof.
  intros Hc. unfold cell.
  destruct (Z.leb_spec 0 c); destruct (Z.ltb_spec c width); cbn [andb];
    try reflexivity; lia.
Qed.

Lemma cell_bit (width : Z) (row : list Z) (c : Z) :
  Forall bit row -> bit (cell width row c).
Proof.
  intros Hrow. unfold cell.
  destruct ((0 <=? c) && (c <? width)); [|now left].
  destruct (row !! Z.to_nat c) as [x|] eqn:Hx; cbn; [|now left].
  rewrite Forall_forall in Hrow. apply Hrow.
  eapply list_elem_of_lookup_2. exact Hx.
Qed.

Lemma RULE30_bit (l c r : Z) : bit l -> bit c -> bit r -> bit (RULE RULE30 l c r).
Proof.
  intros [->| ->] [->| ->] [->| ->]; vm_compute; auto.
Qed.

Lemma step_is_row (width : Z) (row : list Z) :
  0 <= width -> Forall bit row -> is_row width (step RULE30 width row).
Proof.
  intros Hw Hrow. split.
  - unfold step. rewrite length_fmap, length_seqZ. lia.
  - unfold step. rewrite Forall_forall. intros b Hb.
    apply list_elem_of_fmap in Hb as (c & -> & _).
    apply RULE30_bit; apply cell_bit; exact Hrow.
Qed.

Lemma seed_is_row (width : Z) : 0 <= width -> is_row width (seed width).
Proof.
  intros Hw. split.
  - unfold seed. rewrite length_insert, length_replicate. lia.
  - unfold seed. rewrite Forall_forall. intros b Hb.
    apply list_elem_of_lookup_1 in Hb as [i Hi].
    apply list_lookup_insert_Some in Hi as [(_ & <- & _)|(_ & Hi)].
    + now right.
    + apply lookup_replicate_1 in Hi as [-> _]. now left.
Qed.

Lemma row_is_row (width : Z) (r : nat) :
  0 <= width -> is_row width (row RULE30 width r).
Proof.
  intros Hw. destruct r as [|r]; cbn [row].
  - now apply seed_is_row.
  - apply step_is_row; [exact Hw|].
    induction r as [|r IH]; cbn [row].
    + now apply seed_is_row.
    + now apply step_is_row.
Qed.

Lemma cell_step (width : Z) (prev : list Z) (c : Z) :
  0 <= c < width ->
  cell width (step RULE30 width prev) c
  = RULE RULE30 (cell width prev (c - 1)) (cell width prev c) (cell width prev (c + 1)).
Proof.
  intros Hc. unfold cell at 1.
  destruct (Z.leb_spec 0 c); [|lia]. destruct (Z.ltb_spec c width); [|lia].
  cbn [andb]. unfold step. rewrite list_lookup_fmap.
  rewrite (lookup_seqZ_lt 0 width (Z.to_nat c)) by lia. cbn.
  replace (0 + Z.of_nat (Z.to_nat c)) with c by lia. reflexivity.
Qed.

Lemma cell_seed (width : Z) (c : Z) :
  0 < width -> 0 <= c < width ->
  cell width (seed width) c = if c =? width / 2 then 1 else 0.
Proof.
  intros Hw Hc. unfold cell.
  destruct (Z.leb_spec 0 c); [|lia]. destruct (Z.ltb_spec c width); [|lia].
  cbn [andb]. unfold seed.
  assert (0 <= width / 2 < width) by (split; [apply Z.div_pos | apply Z.div_lt_upper_bound]; lia).
  destruct (Z.eqb_spec c (width / 2)) as [->|Hne].
  - rewrite list_lookup_insert_eq; [reflexivity|]. rewrite length_replicate. lia.
  - rewrite list_lookup_insert_ne by lia.
    rewrite lookup_replicate_2 by lia. reflexivity.
Qed.

End AutomatonFacts.

(** ** The array of rows computes the reference automaton *)

Section DenseFacts.
Import Automaton.

Lemma dense_rule_table (l c r : Z) :
  bit l -> bit c -> bit r ->
  Rule30Visualization.rule (Rule30Visualization.pattern (Some l) (Some c) (Some r))
  = RULE RULE30 l c r.
Proof.
  intros [->| ->] [->| ->] [->| ->]; vm_compute; reflexivity.
Qed.

Lemma nextCell_spec (width : Z) (prevGen : list Z) (j : Z) :
  is_row width prevGen -> 0 <= j < width ->
  Rule30Visualization.nextCell width prevGen j
  = RULE RULE30 (cell width prevGen (j - 1)) (cell width prevGen j)
                (cell width prevGen (j + 1)).
Proof.
  intros Hrow Hj. pose proof Hrow as [_ Hbits].
  unfold Rule30Visualization.nextCell.
  rewrite (cell_in_range width prevGen j Hrow Hj).
  assert (Hl : (if j =? 0 then Some 0 else JS.index prevGen (j - 1))
               = Some (cell width prevGen (j - 1))).
  { destruct (Z.eqb_spec j 0) as [->|Hne].
    - rewrite cell_out_of_range by lia. reflexivity.
    - apply cell_in_range; [exact Hrow | lia]. }
  assert (Hr : (if j =? width - 1 then Some 0 else JS.index prevGen (j + 1))
               = Some (cell width prevGen (j + 1))).
  { destruct (Z.eqb_spec j (width - 1)) as [->|Hne].
    - rewrite cell_out_of_range by lia. reflexivity.
    - apply cell_in_range; [exact Hrow | lia]. }
  rewrite Hl, Hr. apply dense_rule_table; apply cell_bit; exact Hbits.
Qed.

Lemma nextGen_spec (width : Z) (prevGen : list Z) :
  is_row width prevGen ->
  Rule30Visualization.nextGen width prevGen = JS.Ok (step RULE30 width prevGen).
Proof.
  intros Hrow. assert (Hw : 0 <= width) by (destruct Hrow; lia).
  unfold Rule30Visualization.nextGen, JS.Array_fill.
  destruct (Z.ltb_spec width 0); [lia|]. cbn [JS.bind]. f_equal.
  set (body := fun j nextGen => JS.array_set nextGen j _).
  pose (P := fun (j : Z) (a : list Z) =>
    Z.of_nat (length a) = width /\
    forall k, 0 <= k < j ->
      JS.index a k = Some (Rule30Visualization.nextCell width prevGen k)).
  assert (Hinv : P width (JS.for_lt width body (replicate (Z.to_nat width) 0))).
  { apply (for_lt_ind P); [exact Hw | |].
    - split; [rewrite length_replicate; lia | intros k Hk; lia].
    - intros j a Hj [Hlen Hpre]. unfold body. split.
      + rewrite length_array_set_in by lia. exact Hlen.
      + intros k Hk. rewrite index_array_set_in by lia.
        destruct (Z.eqb_spec k j) as [->|Hne]; [reflexivity|].
        apply Hpre. lia. }
  destruct Hinv as [Hlen Hcells].
  apply list_eq. intros i.
  destruct (decide (Z.of_nat i < width)) as [Hi|Hi].
  - specialize (Hcells (Z.of_nat i) ltac:(lia)).
    rewrite index_nonneg, Nat2Z.id in Hcells by lia. rewrite Hcells.
    rewrite nextCell_spec by (auto; lia).
    unfold step. rewrite list_lookup_fmap, lookup_seqZ_lt by lia. cbn.
    reflexivity.
  - rewrite !lookup_ge_None_2; [reflexivity | |lia].
    unfold step. rewrite length_fmap, length_seqZ. lia.
Qed.

Lemma initialState_spec (width : Z) :
  0 < width -> Rule30Visualization.initialState width = JS.Ok (seed width).
Proof.
  intros Hw. unfold Rule30Visualization.initialState, JS.Array_fill.
  destruct (Z.ltb_spec width 0); [lia|]. cbn [JS.bind]. f_equal.
  assert (0 <= width / 2 < width)
    by (split; [apply Z.div_pos | apply Z.div_lt_upper_bound]; lia).
  unfold JS.array_set. rewrite length_replicate.
  destruct (Z.ltb_spec (width / 2) 0); [lia|].
  destruct (Z.ltb_spec (width / 2) (Z.of_nat (Z.to_nat width))); [|lia].
  reflexivity.
Qed.

(** The dense grid is the grid of the specification. *)
Lemma allGenerations_spec (width maxGenerations : Z) :
  0 < width -> 0 < maxGenerations ->
  Rule30Visualization.allGenerations width maxGenerations
  = JS.Ok (evolveCellularAutomaton width maxGenerations).
Proof.
  intros Hw Hg. unfold Rule30Visualization.allGenerations.
  rewrite initialState_spec by exact Hw. cbn [JS.bind].
  set (body := fun i acc => JS.bind acc _).
  pose (P := fun (i : Z) (acc : JS.result (list (list Z))) =>
    acc = JS.Ok (row RULE30 width <$> seq 0 (Z.to_nat (i + 1)))).
  assert (Hinv :
    P (maxGenerations - 1) (JS.for_lt (maxGenerations - 1) body (JS.Ok [seed width]))).
  { apply (for_lt_ind P); [lia | reflexivity |].
    intros i acc Hi ->. unfold body. cbn [JS.bind].
    rewrite index_nonneg by lia. rewrite list_lookup_fmap.
    rewrite lookup_seq_lt by lia. cbn [fmap option_fmap option_map JS.bind].
    rewrite nextGen_spec by (apply row_is_row; lia). cbn [JS.bind]. f_equal.
    replace (Z.to_nat (i + 1 + 1)) with (Datatypes.S (Z.to_nat (i + 1))) by lia.
    rewrite seq_S, fmap_app. cbn [fmap list_fmap].
    replace (0 + Z.to_nat (i + 1))%nat with (Datatypes.S (Z.to_nat i)) by lia.
    reflexivity. }
  unfold P in Hinv. rewrite Hinv. unfold evolveCellularAutomaton.
  replace (maxGenerations - 1 + 1) with maxGenerations by lia. reflexivity.
Qed.

End DenseFacts.

(** ** The texture computes the reference automaton *)

Section TextureFacts.
Import Automaton.

Lemma texture_rule_table (l c r : Z) :
  bit l -> bit c -> bit r ->
  Rule30Texture.nextState (Rule30Texture.pattern l c r) = RULE RULE30 l c r.
Proof.
  intros [->| ->] [->| ->] [->| ->]; vm_compute; reflexivity.
Qed.

(** Texel addresses: distinct cells have distinct red bytes, all inside
    the buffer, and no alpha byte is a red byte. *)
Lemma texel_inj (w r c r' c' : Z) :
  0 <= c < w -> 0 <= c' < w ->
  (r * w + c) * 4 = (r' * w + c') * 4 -> r = r' /\ c = c'.
Proof.
  intros Hc Hc' Heq.
  assert (Hr : r = r') by nia. subst r'. split; [reflexivity | lia].
Qed.

Lemma texel_range (w h r c : Z) :
  0 <= r < h -> 0 <= c < w ->
  0 <= (r * w + c) * 4 /\ (r * w + c) * 4 + 3 < w * h * 4.
Proof. intros Hr Hc. split; nia. Qed.

Lemma bit_of_red (data : list Z) (k b : Z) :
  bit b -> JS.index data k = Some (255 * b) -> Rule30Texture.bit data k = b.
Proof.
  intros [->| ->] Hk; unfold Rule30Texture.bit; rewrite Hk; reflexivity.
Qed.

Lemma clear_spec (m : Z) (data : list Z) :
  0 <= m -> Z.of_nat (length data) = m * 4 ->
  Z.of_nat (length (Rule30Texture.clear (m * 4) data)) = m * 4 /\
  forall k, 0 <= k < m ->
    JS.index (Rule30Texture.clear (m * 4) data) (k * 4) = Some 0.
Proof.
  intros Hm Hlen. unfold Rule30Texture.clear, JS.for_lt_step4.
  replace ((m * 4 + 3) / 4) with m by (apply Z.div_unique with 3; lia).
  set (body := fun k data => _).
  pose (P := fun (j : Z) (d : list Z) =>
    Z.of_nat (length d) = m * 4 /\
    forall k, 0 <= k < j -> JS.index d (k * 4) = Some 0).
  apply (for_lt_ind P); [exact Hm | split; [exact Hlen | intros; lia] |].
  intros j d Hj [Hd Hpre]. unfold body. split.
  - rewrite !length_u8_set. exact Hd.
  - intros k Hk.
    rewrite !index_u8_set_ne by lia.
    destruct (Z.eq_dec k j) as [->|Hne].
    + replace (j * 4) with (4 * j) by lia.
      rewrite index_u8_set_eq by lia. reflexivity.
    + rewrite index_u8_set_ne by lia. apply Hpre. lia.
Qed.

(** One cell of the inner loop writes the reference state of [(y+1, x)]
    and nothing else that matters. *)
Lemma evolveCell_spec (w h y x : Z) (data : list Z) :
  0 <= y < h - 1 -> 0 <= x < w ->
  Z.of_nat (length data) = w * h * 4 ->
  (forall c, 0 <= c < w ->
     JS.index data ((y * w + c) * 4) = Some (255 * cell w (row RULE30 w (Z.to_nat y)) c)) ->
  let data' := Rule30Texture.evolveCell w y x data in
  Z.of_nat (length data') = w * h * 4 /\
  JS.index data' (((y + 1) * w + x) * 4)
  = Some (255 * cell w (row RULE30 w (Z.to_nat (y + 1))) x) /\
  forall r c, 0 <= c < w -> (r, c) <> (y + 1, x) ->
    JS.index data' ((r * w + c) * 4) = JS.index data ((r * w + c) * 4).
Proof.
  intros Hy Hx Hlen Hrow. cbv zeta.
  assert (Hbits : Forall bit (row RULE30 w (Z.to_nat y)))
    by (apply row_is_row; lia).
  unfold Rule30Texture.evolveCell.
  set (left := if x =? 0 then 0 else _).
  set (center := Rule30Texture.bit data _).
  set (right := if x =? w - 1 then 0 else _).
  assert (Hleft : left = cell w (row RULE30 w (Z.to_nat y)) (x - 1)).
  { unfold left. destruct (Z.eqb_spec x 0) as [->|Hne].
    - rewrite cell_out_of_range by lia. reflexivity.
    - apply bit_of_red; [now apply cell_bit | apply Hrow; lia]. }
  assert (Hcenter : center = cell w (row RULE30 w (Z.to_nat y)) x).
  { unfold center. apply bit_of_red; [now apply cell_bit | apply Hrow; lia]. }
  assert (Hright : right = cell w (row RULE30 w (Z.to_nat y)) (x + 1)).
  { unfold right. destruct (Z.eqb_spec x (w - 1)) as [->|Hne].
    - rewrite cell_out_of_range by lia. reflexivity.
    - apply bit_of_red; [now apply cell_bit | apply Hrow; lia]. }
  rewrite Hleft, Hcenter, Hright. clear left center right Hleft Hcenter Hright.
  rewrite texture_rule_table by (now apply cell_bit).
  rewrite <- cell_step by lia.
  replace (step RULE30 w (row RULE30 w (Z.to_nat y)))
    with (row RULE30 w (Z.to_nat (y + 1)))
    by (replace (Z.to_nat (y + 1)) with (Datatypes.S (Z.to_nat y)) by lia; reflexivity).
  set (ns := cell w (row RULE30 w (Z.to_nat (y + 1))) x).
  assert (Hns : bit ns) by (apply cell_bit, row_is_row; lia).
  pose proof (texel_range w h (y + 1) x ltac:(lia) Hx) as [Hlo Hhi].
  split; [|split].
  - rewrite !length_u8_set. exact Hlen.
  - rewrite index_u8_set_ne by lia.
    rewrite index_u8_set_eq by lia.
    destruct Hns as [->| ->]; reflexivity.
  - intros r c Hc Hne.
    rewrite index_u8_set_ne.
    + rewrite index_u8_set_ne; [reflexivity|].
      intros Heq. apply texel_inj in Heq as [-> ->]; [congruence | lia | lia].
    + lia.
Qed.

(** The inner loop fills row [y + 1] from row [y]. *)
Lemma evolveRow_spec (w h y : Z) (data : list Z) :
  0 < w -> 0 <= y < h - 1 ->
  Z.of_nat (length data) = w * h * 4 ->
  (forall r c, 0 <= r <= y -> 0 <= c < w ->
     JS.index data ((r * w + c) * 4) = Some (255 * cell w (row RULE30 w (Z.to_nat r)) c)) ->
  let data' := JS.for_lt w (fun x data => Rule30Texture.evolveCell w y x data) data in
  Z.of_nat (length data') = w * h * 4 /\
  forall r c, 0 <= r <= y + 1 -> 0 <= c < w ->
    JS.index data' ((r * w + c) * 4) = Some (255 * cell w (row RULE30 w (Z.to_nat r)) c).
Proof.
  intros Hw Hy Hlen Hrows. cbv zeta.
  pose (Q := fun (x : Z) (d : list Z) =>
    Z.of_nat (length d) = w * h * 4 /\
    (forall r c, 0 <= r <= y -> 0 <= c < w ->
       JS.index d ((r * w + c) * 4)
       = Some (255 * cell w (row RULE30 w (Z.to_nat r)) c)) /\
    (forall c, 0 <= c < x ->
       JS.index d (((y + 1) * w + c) * 4)
       = Some (255 * cell w (row RULE30 w (Z.to_nat (y + 1))) c))).
  assert (HQ : Q w (JS.for_lt w (fun x data => Rule30Texture.evolveCell w y x data) data)).
  { apply (for_lt_ind Q); [lia | |].
    - split; [exact Hlen | split; [exact Hrows | intros; lia]].
    - intros x d Hx (Hd & Hold & Hnew).
      destruct (evolveCell_spec w h y x d Hy Hx Hd) as (Hd' & Hcell & Hother).
      { intros c Hc. apply Hold; lia. }
      split; [exact Hd' | split].
      + intros r c Hr Hc. rewrite Hother; [now apply Hold | exact Hc |].
        intros [= -> ->]. lia.
      + intros c Hc. destruct (Z.eq_dec c x) as [->|Hne]; [exact Hcell|].
        rewrite Hother; [apply Hnew; lia | lia | congruence]. }
  destruct HQ as (Hd & Hold & Hnew). split; [exact Hd|].
  intros r c Hr Hc. destruct (Z.eq_dec r (y + 1)) as [->|Hne].
  - now apply Hnew.
  - apply Hold; lia.
Qed.

(** The texture holds the grid of the specification in its red bytes:
    255 for a live cell and 0 for a dead one. *)
Lemma createRule30Texture_spec (width height : Z) :
  0 < width -> 0 < height ->
  exists data,
    Rule30Texture.createRule30Texture width height
    = JS.Ok (Rule30Texture.mkDataTexture data width height) /\
    Z.of_nat (length data) = width * height * 4 /\
    forall r c, 0 <= r < height -> 0 <= c < width ->
      JS.index data ((r * width + c) * 4)
      = Some (255 * cell width (row RULE30 width (Z.to_nat r)) c).
Proof.
  intros Hw Hh. unfold Rule30Texture.createRule30Texture, JS.Uint8Array_new.
  assert (Hn : 0 <= width * height) by nia.
  destruct (Z.ltb_spec (width * height * 4) 0); [lia|]. cbn [JS.bind].
  eexists. split; [reflexivity|].
  destruct (clear_spec (width * height) (replicate (Z.to_nat (width * height * 4)) 0))
    as [Hlen0 Hzero]; [exact Hn | rewrite length_replicate; lia |].
  set (cleared := Rule30Texture.clear _ _) in *.
  set (seeded := JS.u8_set cleared _ 255).
  assert (Hc : 0 <= width / 2 < width)
    by (split; [apply Z.div_pos | apply Z.div_lt_upper_bound]; lia).
  pose (P := fun (y : Z) (d : list Z) =>
    Z.of_nat (length d) = width * height * 4 /\
    forall r c, 0 <= r <= y -> 0 <= c < width ->
      JS.index d ((r * width + c) * 4)
      = Some (255 * cell width (row RULE30 width (Z.to_nat r)) c)).
  assert (HP : P (height - 1)
    (JS.for_lt (height - 1)
       (fun y data => JS.for_lt width (fun x data => Rule30Texture.evolveCell width y x data) data)
       seeded)).
  { apply (for_lt_ind P); [lia | |].
    - split; [unfold seeded; rewrite length_u8_set; exact Hlen0|].
      intros r c Hr Hcol. assert (r = 0) as -> by lia. cbn [Z.to_nat row].
      rewrite cell_seed by lia. unfold seeded.
      destruct (Z.eqb_spec c (width / 2)) as [->|Hne].
      + rewrite index_u8_set_eq; [reflexivity|]. nia.
      + rewrite index_u8_set_ne by lia.
        replace ((0 * width + c) * 4) with (c * 4) by lia.
        apply Hzero. nia.
    - intros y d Hy [Hd Hrows].
      apply (evolveRow_spec width height y d Hw Hy Hd Hrows). }
  destruct HP as [Hd Hrows]. split; [exact Hd|].
  intros r c Hr Hcol. apply Hrows; lia.
Qed.

End TextureFacts.

(** ** Rule 30 *)

Section Rule30Claims.
Import Automaton.

Lemma index_evolve (width generationCount r : Z) :
  0 <= r < generationCount ->
  JS.index (evolveCellularAutomaton width generationCount) r
  = Some (row RULE30 width (Z.to_nat r)).
Proof.
  intros Hr. rewrite index_nonneg by lia. unfold evolveCellularAutomaton.
  rewrite list_lookup_fmap, lookup_seq_lt by lia. reflexivity.
Qed.

(** On a one-column grid both neighbours of the only cell are virtual. *)
Lemma row_width_1 (r : nat) :
  exists s, bit s /\ row RULE30 1 r = [s] /\ row RULE30 1 (S r) = [RULE RULE30 0 s 0].
Proof.
  destruct (row_is_row 1 r ltac:(lia)) as [Hlen Hbits].
  destruct (row RULE30 1 r) as [|s [|? ?]] eqn:Hrow; cbn in Hlen; try lia.
  exists s. split; [now inversion Hbits | split; [reflexivity|]].
  cbn [row]. rewrite Hrow. reflexivity.
Qed.

End Rule30Claims.

(** C1. The next-state rule sends the 3-bit neighbourhood
    [(left << 2) | (center << 1) | right] to 1 exactly for the patterns 1, 2,
    3 and 4 and to 0 for 0, 5, 6 and 7, in the array version and in the
    texture version alike; for width 7 the seed row is [0,0,0,1,0,0,0] and
    one evolution step gives [0,0,1,1,1,0,0]. *)
Theorem rule30_truth_table_and_first_step :
  (forall l c r : bool,
     Rule30Visualization.pattern (Some (Z.b2z l)) (Some (Z.b2z c)) (Some (Z.b2z r))
     = 4 * Z.b2z l + 2 * Z.b2z c + Z.b2z r /\
     Rule30Texture.pattern (Z.b2z l) (Z.b2z c) (Z.b2z r)
     = 4 * Z.b2z l + 2 * Z.b2z c + Z.b2z r) /\
  (forall p : Z, Rule30Visualization.rule p = 1 <-> p = 1 \/ p = 2 \/ p = 3 \/ p = 4) /\
  (forall p : Z, Rule30Texture.nextState p = 1 <-> p = 1 \/ p = 2 \/ p = 3 \/ p = 4) /\
  Rule30Visualization.rule <$> [0; 1; 2; 3; 4; 5; 6; 7] = [0; 1; 1; 1; 1; 0; 0; 0] /\
  Rule30Texture.nextState <$> [0; 1; 2; 3; 4; 5; 6; 7] = [0; 1; 1; 1; 1; 0; 0; 0] /\
  Rule30Visualization.initialState 7 = JS.Ok [0; 0; 0; 1; 0; 0; 0] /\
  Rule30Visualization.nextGen 7 [0; 0; 0; 1; 0; 0; 0] = JS.Ok [0; 0; 1; 1; 1; 0; 0] /\
  Rule30Visualization.allGenerations 7 2
  = JS.Ok [[0; 0; 0; 1; 0; 0; 0]; [0; 0; 1; 1; 1; 0; 0]] /\
  exists texture,
    Rule30Texture.createRule30Texture 7 2 = JS.Ok texture /\
    Rule30Texture.red texture 0 <$> seqZ 0 7
    = Some <$> [0; 0; 0; 255; 0; 0; 0] /\
    Rule30Texture.red texture 1 <$> seqZ 0 7
    = Some <$> [0; 0; 255; 255; 255; 0; 0].
Proof.
  split; [|split; [|split; [|split; [|split; [|split; [|split; [|split]]]]]]].
  - intros [|] [|] [|]; split; vm_compute; reflexivity.
  - intros p. unfold Rule30Visualization.rule.
    destruct (Z.eqb_spec p 1), (Z.eqb_spec p 2), (Z.eqb_spec p 3), (Z.eqb_spec p 4);
      cbn [orb]; split; intros H; try reflexivity; try discriminate; lia.
  - intros p. unfold Rule30Texture.nextState.
    destruct (Z.eqb_spec p 1), (Z.eqb_spec p 2), (Z.eqb_spec p 3), (Z.eqb_spec p 4);
      cbn [orb]; split; intros H; try reflexivity; try discriminate; lia.
  - reflexivity.
  - reflexivity.
  - vm_compute. reflexivity.
  - vm_compute. reflexivity.
  - vm_compute. reflexivity.
  - eexists. split; [vm_compute; reflexivity|]. split; vm_compute; reflexivity.
Qed.

(** C6. A neighbour column outside [[0, width)] counts as dead: the cell
    written at column [j] is the rule applied to the previous row padded
    with dead cells.  This holds of the inner loop on any row, of every
    pair of consecutive rows of the generated array, and of every pair of
    consecutive rows of the texture.  On a one-column grid every generation
    is the rule applied to [(0, previous cell, 0)], and row 1 is the rule
    applied to [(0, seed[0], 0)]. *)
Theorem boundary_neighbours_are_dead
  (width : Z) (prevGen : list Z) (j generationCount r : Z) :
  Automaton.is_row width prevGen ->
  0 <= j < width ->
  0 <= r -> r + 1 < generationCount ->
  (forall c, c < 0 \/ width <= c -> Automaton.cell width prevGen c = 0) /\
  Rule30Visualization.nextCell width prevGen j
  = Rule30Visualization.rule
      (Rule30Visualization.pattern
         (Some (Automaton.cell width prevGen (j - 1)))
         (Some (Automaton.cell width prevGen j))
         (Some (Automaton.cell width prevGen (j + 1)))) /\
  (exists texture above,
     Rule30Texture.createRule30Texture width generationCount = JS.Ok texture /\
     Automaton.is_row width above /\
     (forall c, 0 <= c < width ->
        Rule30Texture.red texture r c = Some (255 * Automaton.cell width above c)) /\
     Rule30Texture.red texture (r + 1) j
     = Some (255 * Rule30Texture.nextState
                     (Rule30Texture.pattern
                        (Automaton.cell width above (j - 1))
                        (Automaton.cell width above j)
                        (Automaton.cell width above (j + 1))))) /\
  (exists generations s,
     Rule30Visualization.allGenerations 1 generationCount = JS.Ok generations /\
     JS.index generations 0 = Some [1] /\
     JS.index generations r = Some [s] /\
     JS.index generations (r + 1)
     = Some [Rule30Visualization.rule
               (Rule30Visualization.pattern (Some 0) (Some s) (Some 0))]) /\
  (exists texture s,
     Rule30Texture.createRule30Texture 1 generationCount = JS.Ok texture /\
     Rule30Texture.red texture 0 0 = Some 255 /\
     Rule30Texture.red texture r 0 = Some (255 * s) /\
     Rule30Texture.red texture (r + 1) 0
     = Some (255 * Rule30Texture.nextState (Rule30Texture.pattern 0 s 0))) /\
  (exists nextGen,
     Rule30Visualization.nextGen width prevGen = JS.Ok nextGen /\
     Z.of_nat (length nextGen) = width /\
     JS.index nextGen j
     = Some (Rule30Visualization.rule
               (Rule30Visualization.pattern
                  (Some (Automaton.cell width prevGen (j - 1)))
                  (Some (Automaton.cell width prevGen j))
                  (Some (Automaton.cell width prevGen (j + 1)))))) /\
  (exists generations above below,
     Rule30Visualization.allGenerations width generationCount = JS.Ok generations /\
     JS.index generations r = Some above /\
     JS.index generations (r + 1) = Some below /\
     Automaton.is_row width above /\
     (forall c, 0 <= c < width ->
        JS.index above c = Some (Automaton.cell width above c)) /\
     JS.index below j
     = Some (Rule30Visualization.rule
               (Rule30Visualization.pattern
                  (Some (Automaton.cell width above (j - 1)))
                  (Some (Automaton.cell width above j))
                  (Some (Automaton.cell width above (j + 1)))))).
Proof.
  intros Hrow Hj Hr Hg. pose proof Hrow as [Hlen Hbits].
  assert (Hnext : forall row, Automaton.is_row width row ->
    JS.index (Automaton.step Automaton.RULE30 width row) j
    = Some (Rule30Visualization.rule
              (Rule30Visualization.pattern
                 (Some (Automaton.cell width row (j - 1)))
                 (Some (Automaton.cell width row j))
                 (Some (Automaton.cell width row (j + 1)))))).
  { intros row [Hl Hb].
    rewrite (cell_in_range width (Automaton.step Automaton.RULE30 width row) j);
      [|apply step_is_row; [lia | exact Hb] | exact Hj].
    rewrite cell_step by lia. f_equal. symmetry.
    apply dense_rule_table; now apply cell_bit. }
  split; [|split; [|split; [|split; [|split; [|split]]]]].
  - intros c Hc. now apply cell_out_of_range.
  - rewrite nextCell_spec by assumption.
    symmetry. apply dense_rule_table; now apply cell_bit.
  - destruct (createRule30Texture_spec width generationCount) as (data & Htex & _ & Hred);
      [lia | lia |].
    exists (Rule30Texture.mkDataTexture data width generationCount),
           (Automaton.row Automaton.RULE30 width (Z.to_nat r)).
    split; [exact Htex|]. split; [apply row_is_row; lia|]. split.
    + intros c Hc. unfold Rule30Texture.red. cbn. apply Hred; lia.
    + unfold Rule30Texture.red. cbn. rewrite Hred by lia.
      replace (Z.to_nat (r + 1)) with (S (Z.to_nat r)) by lia. cbn [Automaton.row].
      rewrite cell_step by lia.
      rewrite texture_rule_table by (apply cell_bit, row_is_row; lia). reflexivity.
  - destruct (row_width_1 (Z.to_nat r)) as (s & Hs & Hrow_r & Hrow_r1).
    exists (Automaton.evolveCellularAutomaton 1 generationCount), s.
    split; [apply allGenerations_spec; lia|].
    rewrite !index_evolve by lia.
    replace (Z.to_nat (r + 1)) with (S (Z.to_nat r)) by lia.
    rewrite Hrow_r, Hrow_r1, dense_rule_table by (assumption || now left).
    repeat split; reflexivity.
  - destruct (row_width_1 (Z.to_nat r)) as (s & Hs & Hrow_r & Hrow_r1).
    destruct (createRule30Texture_spec 1 generationCount) as (data & Htex & _ & Hred);
      [lia | lia |].
    exists (Rule30Texture.mkDataTexture data 1 generationCount), s.
    split; [exact Htex|]. unfold Rule30Texture.red. cbn [Rule30Texture.image_data Rule30Texture.image_width].
    rewrite !Hred by lia.
    replace (Z.to_nat (r + 1)) with (S (Z.to_nat r)) by lia.
    rewrite Hrow_r, Hrow_r1, texture_rule_table by (assumption || now left).
    repeat split; reflexivity.
  - exists (Automaton.step Automaton.RULE30 width prevGen).
    split; [now apply nextGen_spec|].
    split; [apply (step_is_row width prevGen); [lia | exact Hbits]|].
    now apply Hnext.
  - assert (Habove : Automaton.is_row width
                       (Automaton.row Automaton.RULE30 width (Z.to_nat r)))
      by (apply row_is_row; lia).
    exists (Automaton.evolveCellularAutomaton width generationCount),
           (Automaton.row Automaton.RULE30 width (Z.to_nat r)),
           (Automaton.row Automaton.RULE30 width (Z.to_nat (r + 1))).
    split; [apply allGenerations_spec; lia|].
    split; [apply index_evolve; lia|]. split; [apply index_evolve; lia|].
    split; [exact Habove|]. split.
    + intros c Hc. now apply cell_in_range.
    + replace (Z.to_nat (r + 1)) with (S (Z.to_nat r)) by lia. cbn [Automaton.row].
      now apply Hnext.
Qed.

Lemma boundary_neighbours_are_dead_witness :
  Automaton.is_row 3 [0; 1; 1] /\
  Rule30Visualization.nextCell 3 [0; 1; 1] 2
  = Rule30Visualization.rule
      (Rule30Visualization.pattern (Some 1) (Some 1) (Some (Automaton.cell 3 [0; 1; 1] 3))).
Proof.
  assert (Hrow : Automaton.is_row 3 [0; 1; 1]).
  { split; [reflexivity|]. repeat constructor; (now left) || (now right). }
  split; [exact Hrow|].
  exact (proj1 (proj2 (boundary_neighbours_are_dead 3 [0; 1; 1] 2 3 0 Hrow
                         ltac:(lia) ltac:(lia) ltac:(lia)))).
Defined.

(** C9. The array of rows and the texture hold the same automaton: for
    the same width and generation count, started from the single centre
    cell, cell [(row, col)] is 1 in the array exactly when the red byte of
    texel [(row, col)] is not 0. *)
Theorem dense_grid_matches_texture (width generationCount row col : Z) :
  0 < width -> 0 < generationCount ->
  0 <= row < generationCount -> 0 <= col < width ->
  exists generations texture red,
    Rule30Visualization.allGenerations width generationCount = JS.Ok generations /\
    Rule30Texture.createRule30Texture width generationCount = JS.Ok texture /\
    Rule30Texture.red texture row col = Some red /\
    (Rule30Visualization.live generations row col <-> red <> 0).
Proof.
  intros Hw Hg Hrow Hcol.
  destruct (createRule30Texture_spec width generationCount Hw Hg) as (data & Htex & _ & Hred).
  set (cells := Automaton.row Automaton.RULE30 width (Z.to_nat row)).
  assert (Hcells : Automaton.is_row width cells) by (apply row_is_row; lia).
  exists (Automaton.evolveCellularAutomaton width generationCount),
         (Rule30Texture.mkDataTexture data width generationCount),
         (255 * Automaton.cell width cells col).
  split; [now apply allGenerations_spec|]. split; [exact Htex|].
  split; [unfold Rule30Texture.red; cbn; now apply Hred|].
  unfold Rule30Visualization.live. rewrite index_evolve by lia. fold cells.
  pose proof (cell_in_range width cells col Hcells Hcol) as Hcell.
  split.
  - intros (gen & [= <-] & Hlive). rewrite Hcell in Hlive. injection Hlive as ->. lia.
  - intros Hne. exists cells. split; [reflexivity|]. rewrite Hcell. f_equal.
    destruct (cell_bit width cells col (proj2 Hcells)) as [H0|H1]; [|exact H1].
    rewrite H0 in Hne. lia.
Qed.

Lemma dense_grid_matches_texture_witness :
  exists generations texture red,
    Rule30Visualization.allGenerations 7 3 = JS.Ok generations /\
    Rule30Texture.createRule30Texture 7 3 = JS.Ok texture /\
    Rule30Texture.red texture 2 1 = Some red /\
    (Rule30Visualization.live generations 2 1 <-> red <> 0).
Proof.
  apply (dense_grid_matches_texture 7 3 2 1); lia.
Defined.

(** The two grids the gallery really builds, 240 by 120 cells and 1024 by
    1024 texels, are the grids of the specification. *)
Lemma gallery_grids :
  Rule30Visualization.allGenerations
    Rule30Visualization.width Rule30Visualization.maxGenerations
  = JS.Ok (Automaton.evolveCellularAutomaton 240 120) /\
  exists data,
    Rule30Texture.initialState = JS.Ok (Rule30Texture.mkDataTexture data 1024 1024) /\
    forall r c, 0 <= r < 1024 -> 0 <= c < 1024 ->
      JS.index data ((r * 1024 + c) * 4)
      = Some (255 * Automaton.cell 1024
                      (Automaton.row Automaton.RULE30 1024 (Z.to_nat r)) c).
Proof.
  split.
  - apply allGenerations_spec; reflexivity.
  - destruct (createRule30Texture_spec 1024 1024) as (data & Htex & _ & Hred);
      [reflexivity | reflexivity |].
    exists data. split; [exact Htex | exact Hred].
Qed.

(** ** Element trees *)

Section TreeFacts.
Context {A : Type}.
Implicit Types (t c : Solid.Tree A) (cs : list (Solid.Tree A)).

Lemma height_children_le cs c :
  In c cs ->
  (S (Solid.height c) <= fold_right (fun c m => Nat.max (S (Solid.height c)) m) O cs)%nat.
Proof.
  induction cs as [|c' cs IH]; cbn [fold_right In]; [tauto|].
  intros [->|Hin]; [lia | specialize (IH Hin); lia].
Qed.

Lemma height_uniform cs (h : nat) :
  cs <> [] -> (forall c, In c cs -> Solid.height c = h) ->
  fold_right (fun c m => Nat.max (S (Solid.height c)) m) O cs = S h.
Proof.
  induction cs as [|c cs IH]; [congruence|]. intros _ Hall. cbn [fold_right].
  rewrite (Hall c) by now left.
  destruct cs as [|c' cs']; [cbn; lia|].
  rewrite IH; [lia | congruence | intros ? ?; apply Hall; now right].
Qed.

(** No node lies deeper than the height. *)
Lemma at_level_height (k : nat) t t' :
  Solid.at_level k t t' -> (k + Solid.height t' <= Solid.height t)%nat.
Proof.
  induction 1 as [t|k a cs c t Hin _ IH]; [lia|].
  cbn [Solid.height]. pose proof (height_children_le cs c Hin). lia.
Qed.

End TreeFacts.

(** Facts shared by the three components: [sub] is the list of child props
    of a component and [depth] its depth prop. *)
Section UnfoldFacts.
Context {A : Type} (sub : A -> list A) (depth : A -> Z).
Hypothesis sub_leaf : forall a, depth a <= 0 -> sub a = [].
Hypothesis sub_depth : forall a c, In c (sub a) -> depth c = depth a - 1.

Local Abbreviation tree a := (Solid.unfold sub (Z.to_nat (depth a)) a).

Lemma root_unfold (n : nat) (a : A) : Solid.root (Solid.unfold sub n a) = a.
Proof. destruct n; reflexivity. Qed.

(** The nesting bound is enough: more of it renders the same tree. *)
Lemma unfold_enough (n : nat) :
  forall a, (Z.to_nat (depth a) <= n)%nat -> Solid.unfold sub n a = tree a.
Proof.
  induction n as [|n IH]; intros a Hn.
  - replace (Z.to_nat (depth a)) with O by lia. reflexivity.
  - destruct (Z.to_nat (depth a)) as [|m] eqn:Hm; cbn [Solid.unfold].
    + rewrite sub_leaf by lia. reflexivity.
    + f_equal. apply map_ext_in. intros c Hc.
      pose proof (sub_depth a c Hc) as Hd.
      rewrite (IH c) by lia.
      replace (Z.to_nat (depth c)) with m by lia. reflexivity.
Qed.

(** The tree satisfies the recursion of the component: a node, and below
    it the tree of each child element. *)
Lemma tree_unfold (a : A) :
  tree a = Solid.Node a (map (fun c => tree c) (sub a)).
Proof.
  destruct (Z.to_nat (depth a)) as [|m] eqn:Hm; cbn [Solid.unfold].
  - rewrite sub_leaf by lia. reflexivity.
  - f_equal. apply map_ext_in. intros c Hc.
    pose proof (sub_depth a c Hc) as Hd. apply unfold_enough. lia.
Qed.

Lemma at_level_tree (k : nat) :
  forall a t, Solid.at_level k (tree a) t ->
    t = tree (Solid.root t) /\ depth (Solid.root t) = depth a - Z.of_nat k.
Proof.
  induction k as [|k IH]; intros a t Hat.
  - inversion Hat; subst. rewrite root_unfold.
    split; [reflexivity | lia].
  - rewrite tree_unfold in Hat. inversion Hat as [|k' a' cs c t' Hin Hsub]; subst.
    apply in_map_iff in Hin as (b & <- & Hb).
    destruct (IH b t Hsub) as [Heq Hd]. split; [exact Heq|].
    rewrite Hd, (sub_depth a b Hb). lia.
Qed.

(** The children of any node of the tree are the child elements its
    component renders. *)
Lemma at_level_children (k : nat) (a : A) (t : Solid.Tree A) :
  Solid.at_level k (tree a) t ->
  map Solid.root (Solid.children t) = sub (Solid.root t).
Proof.
  intros Hat. destruct (at_level_tree k a t Hat) as [Heq _].
  rewrite Heq at 1. rewrite tree_unfold. cbn [Solid.children].
  rewrite map_map. erewrite map_ext; [apply map_id|].
  intros c. rewrite tree_unfold. reflexivity.
Qed.

Hypothesis sub_inner : forall a, 0 < depth a -> sub a <> [].

Lemma height_tree_nat (n : nat) :
  forall a, depth a = Z.of_nat n -> Solid.height (tree a) = n.
Proof.
  induction n as [|n IH]; intros a Hn; rewrite tree_unfold; cbn [Solid.height].
  - rewrite sub_leaf by lia. reflexivity.
  - apply height_uniform.
    + intros Hnil. apply map_eq_nil in Hnil. revert Hnil. apply sub_inner. lia.
    + intros c Hc. apply in_map_iff in Hc as (b & <- & Hb).
      apply IH. rewrite (sub_depth a b Hb). lia.
Qed.

Lemma height_tree (a : A) :
  0 <= depth a -> Z.of_nat (Solid.height (tree a)) = depth a.
Proof.
  intros Ha. rewrite (height_tree_nat (Z.to_nat (depth a))); lia.
Qed.

(** A node at level [k] has depth [depth a - k]; none lies below level
    [depth a]; a node of depth 0 is a leaf. *)
Lemma tree_levels (k : nat) (a : A) (t : Solid.Tree A) :
  0 <= depth a -> Solid.at_level k (tree a) t ->
  Z.of_nat k <= depth a /\
  depth (Solid.root t) = depth a - Z.of_nat k /\
  (depth (Solid.root t) = 0 -> Solid.children t = []).
Proof.
  intros Ha Hat. pose proof (at_level_height _ _ _ Hat) as Hh.
  pose proof (height_tree a Ha) as Htree.
  destruct (at_level_tree k a t Hat) as [Heq Hd].
  split; [lia | split; [exact Hd|]].
  intros H0. rewrite Heq, tree_unfold. cbn [Solid.children].
  rewrite sub_leaf by lia. reflexivity.
Qed.


End UnfoldFacts.

(** ** The three subdivisions *)

Section CubeFacts.
Import Cube.

Lemma childCubes_cells (p : Props) :
  0 < depth p -> childCubes true p = map (child p) Design.kept_cells.
Proof.
  intros Hd. unfold childCubes.
  destruct (Z.ltb_spec 0 (depth p)); [|lia]. reflexivity.
Qed.

Lemma childCubes_leaf (p : Props) : depth p <= 0 -> childCubes true p = [].
Proof.
  intros Hd. unfold childCubes.
  destruct (Z.ltb_spec 0 (depth p)); [lia | reflexivity].
Qed.

Lemma child_fields (p : Props) (x y z : Z) :
  position (child p (x, y, z))
  = vadd (position p) (vscale (IZR x, IZR y, IZR z) (size p / 3)) /\
  size (child p (x, y, z)) = (size p / 3)%R /\
  depth (child p (x, y, z)) = depth p - 1.
Proof.
  unfold child. destruct (position p) as [[p0 p1] p2]. cbn. auto.
Qed.

Lemma childCubes_child (p c : Props) :
  In c (childCubes true p) ->
  0 < depth p /\ exists x y z, In (x, y, z) Design.kept_cells /\ c = child p (x, y, z).
Proof.
  intros Hc. destruct (Z.le_gt_cases (depth p) 0) as [Hle|Hgt].
  - rewrite childCubes_leaf in Hc by exact Hle. destruct Hc.
  - split; [lia|]. rewrite childCubes_cells in Hc by lia.
    apply in_map_iff in Hc as ([[x y] z] & <- & Hin). eauto.
Qed.

Lemma childCubes_depth (p c : Props) :
  In c (childCubes true p) -> depth c = depth p - 1.
Proof.
  intros Hc. apply childCubes_child in Hc as (_ & x & y & z & _ & ->).
  apply child_fields.
Qed.

Lemma childCubes_inner (p : Props) : 0 < depth p -> childCubes true p <> [].
Proof. intros Hd. rewrite childCubes_cells by exact Hd. discriminate. Qed.


Lemma kept_cells_spec (x y z : Z) :
  In (x, y, z) Design.kept_cells <->
  (-1 <= x <= 1 /\ -1 <= y <= 1 /\ -1 <= z <= 1) /\ 1 < Z.abs x + Z.abs y + Z.abs z.
Proof.
  split.
  - intros Hin. cbv in Hin.
    repeat (destruct Hin as [[= <- <- <-]|Hin]; [cbn; lia|]). destruct Hin.
  - intros [(Hx & Hy & Hz) Hsum].
    assert (Hx' : x = -1 \/ x = 0 \/ x = 1) by lia.
    assert (Hy' : y = -1 \/ y = 0 \/ y = 1) by lia.
    assert (Hz' : z = -1 \/ z = 0 \/ z = 1) by lia.
    destruct Hx' as [->|[->| ->]], Hy' as [->|[->| ->]], Hz' as [->|[->| ->]];
      cbn in Hsum; try lia; cbv; tauto.
Qed.

End CubeFacts.

Section TetrahedronFacts.
Import Tetrahedron.

Lemma childTetrahedra_inner (p : Props) :
  0 < depth p ->
  childTetrahedra true p = [child p 0; child p 1; child p 2; child p 3].
Proof.
  intros Hd. unfold childTetrahedra.
  destruct (Z.ltb_spec 0 (depth p)); [|lia]. reflexivity.
Qed.

Lemma childTetrahedra_leaf (p : Props) : depth p <= 0 -> childTetrahedra true p = [].
Proof.
  intros Hd. unfold childTetrahedra.
  destruct (Z.ltb_spec 0 (depth p)); [lia | reflexivity].
Qed.

Lemma childTetrahedra_child (p c : Props) :
  In c (childTetrahedra true p) -> 0 < depth p /\ exists i, 0 <= i < 4 /\ c = child p i.
Proof.
  intros Hc. destruct (Z.le_gt_cases (depth p) 0) as [Hle|Hgt].
  - rewrite childTetrahedra_leaf in Hc by exact Hle. destruct Hc.
  - split; [lia|]. rewrite childTetrahedra_inner in Hc by lia.
    destruct Hc as [<-|[<-|[<-|[<-|[]]]]]; eexists; (split; [|reflexivity]); lia.
Qed.

Lemma childTetrahedra_depth (p c : Props) :
  In c (childTetrahedra true p) -> depth c = depth p - 1.
Proof.
  intros Hc. apply childTetrahedra_child in Hc as (_ & i & _ & ->). reflexivity.
Qed.

Lemma childTetrahedra_nonempty (p : Props) : 0 < depth p -> childTetrahedra true p <> [].
Proof. intros Hd. rewrite childTetrahedra_inner by exact Hd. discriminate. Qed.


End TetrahedronFacts.

Section TorusFacts.
Import Torus.

Lemma childTori_inner (p : Props) :
  0 < depth p ->
  childTori true p = [child p 0; child p 1; child p 2; child p 3].
Proof.
  intros Hd. unfold childTori.
  destruct (Z.ltb_spec 0 (depth p)); [|lia]. reflexivity.
Qed.

Lemma childTori_leaf (p : Props) : depth p <= 0 -> childTori true p = [].
Proof.
  intros Hd. unfold childTori.
  destruct (Z.ltb_spec 0 (depth p)); [lia | reflexivity].
Qed.

Lemma child_props (p : Props) (i : Z) :
  radius (props (child p i)) = (tubeRadius p / (PI / 2))%R /\
  tubeRadius (props (child p i)) = (radius (props (child p i)) / 2)%R /\
  depth (props (child p i)) = depth p - 1.
Proof.
  unfold child. destruct (position p) as [[p0 p1] p2]. cbn. auto.
Qed.

Lemma childTori_child (p c : Props) :
  In c (map props (childTori true p)) ->
  0 < depth p /\ exists i, 0 <= i < 4 /\ c = props (child p i).
Proof.
  intros Hc. destruct (Z.le_gt_cases (depth p) 0) as [Hle|Hgt].
  - rewrite childTori_leaf in Hc by exact Hle. destruct Hc.
  - split; [lia|]. rewrite childTori_inner in Hc by lia.
    destruct Hc as [<-|[<-|[<-|[<-|[]]]]]; eexists; (split; [|reflexivity]); lia.
Qed.

Lemma childTori_depth (p c : Props) :
  In c (map props (childTori true p)) -> depth c = depth p - 1.
Proof.
  intros Hc. apply childTori_child in Hc as (_ & i & _ & ->). apply child_props.
Qed.

Lemma childTori_nonempty (p : Props) :
  0 < depth p -> map props (childTori true p) <> [].
Proof. intros Hd. rewrite childTori_inner by exact Hd. discriminate. Qed.


End TorusFacts.

(** C2. Every cube node with depth remaining > 0 has exactly 20 children,
    one for each grid cell [(x, y, z)] of [{-1, 0, 1}^3] with
    [|x| + |y| + |z| > 1]; the child of cell [(x, y, z)] has size
    [parentSize / 3] and position [parentPosition + (x, y, z) * parentSize / 3]. *)
Theorem cube_subdivision
  (root : Cube.Props) (k : nat) (node : Solid.Tree Cube.Props) :
  Solid.at_level k (Cube.tree root) node ->
  0 < Cube.depth (Solid.root node) ->
  length (Solid.children node) = 20%nat /\
  map Solid.root (Solid.children node)
  = map (Cube.child (Solid.root node)) Design.kept_cells /\
  NoDup Design.kept_cells /\
  (forall x y z,
     In (x, y, z) Design.kept_cells <->
     (-1 <= x <= 1 /\ -1 <= y <= 1 /\ -1 <= z <= 1) /\
     1 < Z.abs x + Z.abs y + Z.abs z) /\
  (forall x y z,
     Cube.position (Cube.child (Solid.root node) (x, y, z))
     = vadd (Cube.position (Solid.root node))
            (vscale (IZR x, IZR y, IZR z) (Cube.size (Solid.root node) / 3)) /\
     Cube.size (Cube.child (Solid.root node) (x, y, z))
     = (Cube.size (Solid.root node) / 3)%R /\
     Cube.depth (Cube.child (Solid.root node) (x, y, z))
     = Cube.depth (Solid.root node) - 1).
Proof.
  intros Hat Hd.
  assert (Hkids : map Solid.root (Solid.children node)
                  = map (Cube.child (Solid.root node)) Design.kept_cells).
  { unfold Cube.tree in Hat.
    rewrite (at_level_children (Cube.childCubes true) Cube.depth
               childCubes_leaf childCubes_depth k root node Hat).
    now apply childCubes_cells. }
  split; [|split; [exact Hkids | split; [|split]]].
  - rewrite <- (length_map Solid.root), Hkids, length_map. reflexivity.
  - apply (bool_decide_unpack (NoDup Design.kept_cells)). vm_compute. reflexivity.
  - apply kept_cells_spec.
  - intros x y z. apply child_fields.
Qed.

Lemma cube_subdivision_witness :
  Solid.at_level 0 (Cube.tree Cube.defaults) (Cube.tree Cube.defaults) /\
  0 < Cube.depth (Solid.root (Cube.tree Cube.defaults)) /\
  length (Solid.children (Cube.tree Cube.defaults)) = 20%nat.
Proof.
  assert (Hat : Solid.at_level 0 (Cube.tree Cube.defaults) (Cube.tree Cube.defaults))
    by constructor.
  assert (Hd : 0 < Cube.depth (Solid.root (Cube.tree Cube.defaults))) by reflexivity.
  split; [exact Hat | split; [exact Hd|]].
  exact (proj1 (cube_subdivision Cube.defaults 0 (Cube.tree Cube.defaults) Hat Hd)).
Defined.






(** ** Colours *)

(** The claim C4 as stated fails on the default sponge: its root has depth
    remaining 3 = maxDepth, hence level 0, but colour index 1; and the root
    of a sponge of depth 10 has a negative colour index. *)
Lemma colorIndex_counts_from_4_not_from_maxDepth :
  Cube.colorIndex (Solid.root (Cube.tree Cube.defaults)) = 1 /\
  Design.colorIndex (Cube.depth Cube.defaults)
    (Cube.depth (Solid.root (Cube.tree Cube.defaults)))
    (Z.of_nat (length Cube.DEPTH_COLORS)) = 0 /\
  Cube.colorIndex (Cube.mkProps (0, 0, 0)%R 3%R 10 0) = -6 /\
  Torus.colorIndex (Solid.root (Torus.tree Torus.defaults)) = -2.
Proof.
  unfold Cube.tree, Torus.tree. rewrite !root_unfold. repeat split.
Qed.

(** C4, amended.  The colour index counts from the constant 4: on every
    node of a sponge it is [min(4 - depthRemaining, paletteSize - 1)], which
    is [4 - depthRemaining], and on every node of a torus tree it is
    [4 - depthRemaining].  It is below the palette size, it is 4 at depth
    remaining 0 whatever [maxDepth] is, it is non-negative exactly when the
    depth remaining is at most 4, and it is the clamped level
    [clamp(maxDepth - depthRemaining, 0, paletteSize - 1)] when [maxDepth]
    is 4. *)
Theorem colorIndex_counts_from_4 (cube : Cube.Props) (torus : Torus.Props) :
  0 <= Cube.depth cube -> 0 <= Torus.depth torus ->
  (forall k t, Solid.at_level k (Cube.tree cube) t ->
     let d := Cube.depth (Solid.root t) in
     let i := Cube.colorIndex (Solid.root t) in
     d = Cube.depth cube - Z.of_nat k /\
     i = Z.min (4 - d) (Z.of_nat (length Cube.DEPTH_COLORS) - 1) /\
     i = 4 - d /\
     i < Z.of_nat (length Cube.DEPTH_COLORS) /\
     (d = 0 -> i = 4) /\
     (0 <= i <-> d <= 4) /\
     (Cube.depth cube = 4 ->
      i = Design.colorIndex (Cube.depth cube) d (Z.of_nat (length Cube.DEPTH_COLORS)))) /\
  (forall k t, Solid.at_level k (Torus.tree torus) t ->
     let d := Torus.depth (Solid.root t) in
     let i := Torus.colorIndex (Solid.root t) in
     d = Torus.depth torus - Z.of_nat k /\
     i = 4 - d /\
     i < Z.of_nat (length Torus.DEPTH_COLORS) /\
     (d = 0 -> i = 4) /\
     (0 <= i <-> d <= 4) /\
     (Torus.depth torus = 4 ->
      i = Design.colorIndex (Torus.depth torus) d (Z.of_nat (length Torus.DEPTH_COLORS)))).
Proof.
  intros Hc Ht. split.
  - intros k t Hat.
    destruct (tree_levels _ _ childCubes_leaf childCubes_depth childCubes_inner
                k cube t Hc Hat) as (Hk & Hd & _).
    cbv zeta. unfold Cube.colorIndex, Design.colorIndex, Design.clamp. cbn [length Cube.DEPTH_COLORS].
    repeat split; lia.
  - assert (Hleaf : forall a, Torus.depth a <= 0 -> map Torus.props (Torus.childTori true a) = [])
      by (intros a Ha; now rewrite childTori_leaf).
    intros k t Hat.
    destruct (tree_levels _ _ Hleaf childTori_depth childTori_nonempty
                k torus t Ht Hat) as (Hk & Hd & _).
    cbv zeta. unfold Torus.colorIndex, Design.colorIndex, Design.clamp. cbn [length Torus.DEPTH_COLORS].
    repeat split; lia.
Qed.

Lemma colorIndex_counts_from_4_witness :
  (0 <= Cube.depth (Cube.mkProps (0, 0, 0)%R 3%R 10 0) /\
   0 <= Torus.depth Torus.defaults) /\
  forall t,
    Solid.at_level 10 (Cube.tree (Cube.mkProps (0, 0, 0)%R 3%R 10 0)) t ->
    Cube.colorIndex (Solid.root t) = 4.
Proof.
  assert (H1 : 0 <= Cube.depth (Cube.mkProps (0, 0, 0)%R 3%R 10 0)) by (cbn; lia).
  assert (H2 : 0 <= Torus.depth Torus.defaults) by (cbn; lia).
  split; [split; assumption|].
  intros t Hat.
  destruct (proj1 (colorIndex_counts_from_4 _ Torus.defaults H1 H2) 10%nat t Hat)
    as (Hd & _ & _ & _ & Hleaf & _).
  apply Hleaf. rewrite Hd. reflexivity.
Defined.

(** ** The torus ring *)

Lemma quarter_turns :
  (cos (IZR 0 * PI / 2) = 1 /\ sin (IZR 0 * PI / 2) = 0)%R /\
  (cos (IZR 1 * PI / 2) = 0 /\ sin (IZR 1 * PI / 2) = 1)%R /\
  (cos (IZR 2 * PI / 2) = -1 /\ sin (IZR 2 * PI / 2) = 0)%R /\
  (cos (IZR 3 * PI / 2) = 0 /\ sin (IZR 3 * PI / 2) = -1)%R.
Proof.
  replace (IZR 0 * PI / 2)%R with 0%R by lra.
  replace (IZR 1 * PI / 2)%R with (PI / 2)%R by lra.
  replace (IZR 2 * PI / 2)%R with PI by lra.
  replace (IZR 3 * PI / 2)%R with (3 * (PI / 2))%R by lra.
  rewrite cos_0, sin_0, cos_PI2, sin_PI2, cos_PI, sin_PI, cos_3PI2, sin_3PI2.
  repeat split; reflexivity.
Qed.

(** C5 on the default torus (radius 4, tube radius 2, depth 6): there are
    exactly 4 children, at the angles 0, π/2, π and 3π/2 of the major
    circle, each with a tube radius of half its major radius; but the major
    radius of a child is [tubeRadius / (π / 2)], that is 4/π, and not the
    parent's tube radius 2. *)
Theorem torus_child_radius_is_not_parent_tube :
  exists c0 c1 c2 c3,
    Torus.childTori true Torus.defaults = [c0; c1; c2; c3] /\
    Torus.angle <$> [c0; c1; c2; c3] = [0; PI / 2; PI; 3 * (PI / 2)]%R /\
    Torus.group_position <$> [c0; c1; c2; c3]
    = [(4, 0, 0); (0, 4, 0); (-4, 0, 0); (0, -4, 0)]%R /\
    forall c, In c [c0; c1; c2; c3] ->
      Torus.tubeRadius (Torus.props c) = (Torus.radius (Torus.props c) / 2)%R /\
      Torus.radius (Torus.props c) = (4 / PI)%R /\
      Torus.radius (Torus.props c) <> Torus.tubeRadius Torus.defaults.
Proof.
  exists (Torus.child Torus.defaults 0), (Torus.child Torus.defaults 1),
         (Torus.child Torus.defaults 2), (Torus.child Torus.defaults 3).
  destruct quarter_turns as ((C0 & S0) & (C1 & S1) & (C2 & S2) & (C3 & S3)).
  pose proof PI2_1 as Hpi. pose proof PI_RGT_0 as Hpos.
  split; [reflexivity | split; [|split]].
  - cbn. repeat (apply f_equal2; [lra|]). reflexivity.
  - cbn. rewrite C0, S0, C1, S1, C2, S2, C3, S3.
    repeat (apply f_equal2; [apply f_equal2; [apply f_equal2|]; lra|]). reflexivity.
  - assert (Hrad : (2 / (PI / 2) = 4 / PI)%R) by (field; lra).
    assert (Hne : (4 / PI <> 2)%R).
    { intros Heq. apply (Rmult_eq_compat_r PI) in Heq.
      unfold Rdiv in Heq. rewrite Rmult_assoc, Rinv_l in Heq by lra. lra. }
    intros c [<-|[<-|[<-|[<-|[]]]]]; cbn; rewrite Hrad; auto.
Qed.

(** C10. The torus computes its colour index as [4 - depth] without any
    clamp; whenever the index is outside the index range of the 5-entry
    palette (depth above 4, as for the root at the default depth 6, or a
    negative depth) the colour is the fallback ['#ffffff'], not [undefined]. *)
Theorem torus_color_falls_back_to_white (p : Torus.Props) :
  Torus.colorIndex p < 0 \/ Z.of_nat (length Torus.DEPTH_COLORS) <= Torus.colorIndex p ->
  Torus.colorIndex p = 4 - Torus.depth p /\
  (4 < Torus.depth p \/ Torus.depth p < 0) /\
  Torus.color p = Some "#ffffff"%string /\
  Torus.mesh_color <$> Torus.Torus true true p = Some (Some "#ffffff"%string).
Proof.
  intros Hout.
  assert (Hcolor : Torus.color p = Some "#ffffff"%string).
  { unfold Torus.color, JS.index.
    destruct (Z.ltb_spec (Torus.colorIndex p) 0) as [Hneg|Hpos]; [reflexivity|].
    rewrite lookup_ge_None_2 by lia. reflexivity. }
  split; [reflexivity | split; [|split]].
  - unfold Torus.colorIndex in Hout. cbn in Hout. lia.
  - exact Hcolor.
  - unfold Torus.Torus. cbn. now rewrite Hcolor.
Qed.

Lemma torus_color_falls_back_to_white_witness :
  Torus.colorIndex Torus.defaults < 0 /\
  Torus.colorIndex Torus.defaults = 4 - 6 /\
  Torus.color Torus.defaults = Some "#ffffff"%string.
Proof.
  assert (H : Torus.colorIndex Torus.defaults < 0) by reflexivity.
  split; [exact H|].
  destruct (torus_color_falls_back_to_white Torus.defaults (or_introl H))
    as (Hi & _ & Hc & _).
  exact (conj Hi Hc).
Defined.

(** ** One colour per level? *)

Lemma cube_color_depth (p q : Cube.Props) :
  Cube.depth p = Cube.depth q -> Cube.color p = Cube.color q.
Proof. intros H. unfold Cube.color, Cube.colorIndex. now rewrite H. Qed.

Lemma torus_color_depth (p q : Torus.Props) :
  Torus.depth p = Torus.depth q -> Torus.color p = Torus.color q.
Proof. intros H. unfold Torus.color, Torus.colorIndex. now rewrite H. Qed.

(** The claim C8 fails on the default tetrahedron: the first two children
    of the root are on the same level and are drawn green and blue. *)
Lemma tetrahedron_siblings_differ_in_color :
  exists t1 t2,
    Solid.at_level 1 (Tetrahedron.tree Tetrahedron.defaults) t1 /\
    Solid.at_level 1 (Tetrahedron.tree Tetrahedron.defaults) t2 /\
    Tetrahedron.displayColor (Solid.root t1) = Some "#33ff33"%string /\
    Tetrahedron.displayColor (Solid.root t2) = Some "#3333ff"%string /\
    Tetrahedron.displayColor (Solid.root t1) <> Tetrahedron.displayColor (Solid.root t2).
Proof.
  exists (Tetrahedron.tree (Tetrahedron.child Tetrahedron.defaults 0)),
         (Tetrahedron.tree (Tetrahedron.child Tetrahedron.defaults 1)).
  unfold Tetrahedron.tree at 1 3.
  rewrite (tree_unfold Tetrahedron.elements _ childTetrahedra_leaf childTetrahedra_depth
             Tetrahedron.defaults).
  change (Tetrahedron.elements Tetrahedron.defaults)
    with (Tetrahedron.childTetrahedra true Tetrahedron.defaults).
  rewrite childTetrahedra_inner by reflexivity.
  unfold Tetrahedron.tree. rewrite !root_unfold.
  split; [|split; [|split; [|split]]].
  - apply Solid.at_level_child with (c := Tetrahedron.tree (Tetrahedron.child Tetrahedron.defaults 0));
      [left; reflexivity | constructor].
  - apply Solid.at_level_child with (c := Tetrahedron.tree (Tetrahedron.child Tetrahedron.defaults 1));
      [right; left; reflexivity | constructor].
  - reflexivity.
  - reflexivity.
  - discriminate.
Qed.

(** C8, amended.  In a sponge and in a torus tree any two nodes on the same
    level have the same colour.  In a tetrahedron tree the colour of a child
    is fixed by its parent's depth and its own index [i] among the four
    children, [DEPTH_COLORS[(5 - parentDepth + i) % 6]], so that the four
    children of a node (of depth 1 to 5) have four different colours. *)
Theorem color_is_fixed_by_level_or_by_sibling_index
  (cube : Cube.Props) (torus : Torus.Props)
  (tetra : Tetrahedron.Props) (k : nat) (node : Solid.Tree Tetrahedron.Props) :
  Solid.at_level k (Tetrahedron.tree tetra) node ->
  1 <= Tetrahedron.depth (Solid.root node) <= 5 ->
  (forall l t1 t2,
     Solid.at_level l (Cube.tree cube) t1 -> Solid.at_level l (Cube.tree cube) t2 ->
     Cube.color (Solid.root t1) = Cube.color (Solid.root t2)) /\
  (forall l t1 t2,
     Solid.at_level l (Torus.tree torus) t1 -> Solid.at_level l (Torus.tree torus) t2 ->
     Torus.color (Solid.root t1) = Torus.color (Solid.root t2)) /\
  Tetrahedron.displayColor <$> (Solid.root <$> Solid.children node)
  = (fun i => Tetrahedron.palette (5 - Tetrahedron.depth (Solid.root node) + i))
      <$> [0; 1; 2; 3] /\
  NoDup (Tetrahedron.displayColor <$> (Solid.root <$> Solid.children node)).
Proof.
  intros Hat Hd. split; [|split].
  - intros l t1 t2 H1 H2. apply cube_color_depth.
    destruct (at_level_tree _ _ childCubes_leaf childCubes_depth l cube t1 H1) as [_ ->].
    destruct (at_level_tree _ _ childCubes_leaf childCubes_depth l cube t2 H2) as [_ ->].
    reflexivity.
  - assert (Hleaf : forall a, Torus.depth a <= 0 -> map Torus.props (Torus.childTori true a) = [])
      by (intros a Ha; now rewrite childTori_leaf).
    intros l t1 t2 H1 H2. apply torus_color_depth.
    destruct (at_level_tree _ _ Hleaf childTori_depth l torus t1 H1) as [_ ->].
    destruct (at_level_tree _ _ Hleaf childTori_depth l torus t2 H2) as [_ ->].
    reflexivity.
  - unfold Tetrahedron.tree in Hat.
    pose proof (at_level_children _ _ childTetrahedra_leaf childTetrahedra_depth
                  k tetra node Hat) as Hkids.
    change (map Solid.root (Solid.children node))
      with (Solid.root <$> Solid.children node) in Hkids.
    rewrite Hkids, childTetrahedra_inner by lia.
    destruct (Solid.root node) as [pos sz d dl col]. cbn [Tetrahedron.depth] in *.
    assert (Hcases : d = 1 \/ d = 2 \/ d = 3 \/ d = 4 \/ d = 5) by lia.
    destruct Hcases as [->|[->|[->|[->| ->]]]];
      (split; [reflexivity|]);
      cbn;
      repeat (apply NoDup_cons_2;
              [rewrite ?elem_of_cons, elem_of_nil; intuition discriminate|]);
      apply NoDup_nil_2.
Qed.

Lemma color_is_fixed_by_level_or_by_sibling_index_witness :
  (Solid.at_level 0 (Tetrahedron.tree Tetrahedron.defaults)
     (Tetrahedron.tree Tetrahedron.defaults) /\
   1 <= Tetrahedron.depth (Solid.root (Tetrahedron.tree Tetrahedron.defaults)) <= 5) /\
  Tetrahedron.displayColor
    <$> (Solid.root <$> Solid.children (Tetrahedron.tree Tetrahedron.defaults))
  = [Some "#33ff33"; Some "#3333ff"; Some "#ffff33"; Some "#ff33ff"]%string.
Proof.
  assert (H1 : Solid.at_level 0 (Tetrahedron.tree Tetrahedron.defaults)
                 (Tetrahedron.tree Tetrahedron.defaults)) by constructor.
  assert (H2 : 1 <= Tetrahedron.depth (Solid.root (Tetrahedron.tree Tetrahedron.defaults)) <= 5)
    by (change (1 <= 4 <= 5); lia).
  split; [exact (conj H1 H2)|].
  exact (proj1 (proj2 (proj2
           (color_is_fixed_by_level_or_by_sibling_index
              Cube.defaults Torus.defaults Tetrahedron.defaults 0
              (Tetrahedron.tree Tetrahedron.defaults) H1 H2)))).
Defined.

(** ** Parameters outside the contract *)

Section NoValidation.





End NoValidation.



(** * Further properties of the code *)

(** ** The shape of the Rule 30 pattern *)

Section Rule30Pattern.
Import Automaton.

(** Outside the triangle below the seed every cell is dead. *)
Lemma cone_dead (width : Z) (r : nat) :
  0 < width ->
  forall c, Z.of_nat r < Z.abs (c - width / 2) ->
    cell width (row RULE30 width r) c = 0.
Proof.
  intros Hw. induction r as [|r IH]; intros c Hc.
  - cbn [row]. destruct (decide (0 <= c < width)) as [Hin|Hout].
    + rewrite cell_seed by lia. destruct (Z.eqb_spec c (width / 2)); [lia | reflexivity].
    + apply cell_out_of_range. lia.
  - cbn [row]. destruct (decide (0 <= c < width)) as [Hin|Hout].
    + rewrite cell_step by lia. rewrite !IH by lia. reflexivity.
    + apply cell_out_of_range. lia.
Qed.

(** The two sides of the triangle are live. *)
Lemma cone_edge (width : Z) (r : nat) :
  0 < width ->
  forall c, 0 <= c < width -> Z.abs (c - width / 2) = Z.of_nat r ->
    cell width (row RULE30 width r) c = 1.
Proof.
  intros Hw. induction r as [|r IH]; intros c Hin Hc.
  - cbn [row]. rewrite cell_seed by lia.
    destruct (Z.eqb_spec c (width / 2)); [reflexivity | lia].
  - cbn [row]. rewrite cell_step by lia.
    assert (0 <= width / 2 < width)
      by (split; [apply Z.div_pos | apply Z.div_lt_upper_bound]; lia).
    rewrite (cone_dead width r Hw c) by lia.
    destruct (Z.lt_ge_cases c (width / 2)) as [Hleft|Hright].
    + rewrite (cone_dead width r Hw (c - 1)) by lia.
      rewrite (IH (c + 1)) by lia. reflexivity.
    + rewrite (cone_dead width r Hw (c + 1)) by lia.
      rewrite (IH (c - 1)) by lia. reflexivity.
Qed.

End Rule30Pattern.

(** X1. For a positive width and generation count the array version returns
    exactly [generationCount] rows, every row holds [width] cells that are 0
    or 1, and row 0 has its single live cell at column [floor(width / 2)]. *)
Theorem grid_is_rectangular_and_binary (width generationCount : Z) :
  0 < width -> 0 < generationCount ->
  exists generations,
    Rule30Visualization.allGenerations width generationCount = JS.Ok generations /\
    Z.of_nat (length generations) = generationCount /\
    (forall gen, In gen generations ->
       Z.of_nat (length gen) = width /\ forall s, In s gen -> s = 0 \/ s = 1) /\
    exists seed,
      JS.index generations 0 = Some seed /\
      forall c, 0 <= c < width ->
        JS.index seed c = Some (if c =? width / 2 then 1 else 0).
Proof.
  intros Hw Hg. exists (Automaton.evolveCellularAutomaton width generationCount).
  split; [now apply allGenerations_spec|]. split; [|split].
  - unfold Automaton.evolveCellularAutomaton. rewrite length_fmap, length_seq. lia.
  - intros gen Hgen. unfold Automaton.evolveCellularAutomaton in Hgen.
    apply in_map_iff in Hgen as (r & <- & _).
    destruct (row_is_row width r ltac:(lia)) as [Hlen Hbits]. split; [exact Hlen|].
    intros s Hs. rewrite Forall_forall in Hbits. apply Hbits.
    now apply list_elem_of_In.
  - exists (Automaton.seed width). split; [now rewrite index_evolve by lia|].
    intros c Hc. rewrite (cell_in_range width) by (auto using seed_is_row with lia).
    now rewrite cell_seed by lia.
Qed.

Lemma grid_is_rectangular_and_binary_witness :
  exists generations,
    Rule30Visualization.allGenerations 5 3 = JS.Ok generations /\
    Z.of_nat (length generations) = 3.
Proof.
  destruct (grid_is_rectangular_and_binary 5 3 ltac:(lia) ltac:(lia))
    as (generations & Hgen & Hlen & _).
  exists generations. exact (conj Hgen Hlen).
Defined.

(** X2. The pattern is a triangle below the seed: in row [r] every cell
    more than [r] columns away from the centre column is dead, and the two
    cells exactly [r] columns away are live; the array and the texture agree
    on it (red byte 0, respectively 255). *)
Theorem pattern_is_a_triangle (width generationCount r c : Z) :
  0 < width -> 0 < generationCount ->
  0 <= r < generationCount -> 0 <= c < width ->
  exists generations texture gen s,
    Rule30Visualization.allGenerations width generationCount = JS.Ok generations /\
    Rule30Texture.createRule30Texture width generationCount = JS.Ok texture /\
    JS.index generations r = Some gen /\
    JS.index gen c = Some s /\
    Rule30Texture.red texture r c = Some (255 * s) /\
    (r < Z.abs (c - width / 2) -> s = 0) /\
    (Z.abs (c - width / 2) = r -> s = 1).
Proof.
  intros Hw Hg Hr Hc.
  destruct (createRule30Texture_spec width generationCount Hw Hg) as (data & Htex & _ & Hred).
  exists (Automaton.evolveCellularAutomaton width generationCount),
         (Rule30Texture.mkDataTexture data width generationCount),
         (Automaton.row Automaton.RULE30 width (Z.to_nat r)),
         (Automaton.cell width (Automaton.row Automaton.RULE30 width (Z.to_nat r)) c).
  split; [now apply allGenerations_spec|]. split; [exact Htex|].
  split; [now apply index_evolve|].
  split; [apply cell_in_range; [apply row_is_row; lia | exact Hc]|].
  split; [unfold Rule30Texture.red; cbn; now apply Hred|]. split.
  - intros Hout. apply cone_dead; lia.
  - intros Hedge. apply cone_edge; lia.
Qed.

Lemma pattern_is_a_triangle_witness :
  exists generations texture gen s,
    Rule30Visualization.allGenerations 9 4 = JS.Ok generations /\
    Rule30Texture.createRule30Texture 9 4 = JS.Ok texture /\
    JS.index generations 2 = Some gen /\
    JS.index gen 6 = Some s /\
    Rule30Texture.red texture 2 6 = Some (255 * s) /\
    (2 < Z.abs (6 - 9 / 2) -> s = 0) /\
    (Z.abs (6 - 9 / 2) = 2 -> s = 1).
Proof.
  apply (pattern_is_a_triangle 9 4 2 6); lia.
Defined.

(** ** The channels of the texture *)

Section TextureChannels.
Variable n : Z.

(** Byte [j] of an RGBA buffer holds a legal value for its channel: red is
    0 or 255, green and blue are 0, alpha is 255. *)
Local Abbreviation channel_ok j x :=
  ((j mod 4 = 0 -> x = 0 \/ x = 255) /\
   (j mod 4 = 1 -> x = 0) /\
   (j mod 4 = 2 -> x = 0) /\
   (j mod 4 = 3 -> x = 255)).

Local Abbreviation painted_below m d :=
  (Z.of_nat (length d) = n /\
   forall j, 0 <= j < m -> exists x, JS.index d j = Some x /\ channel_ok j x).

Lemma index_u8_set_cases (data : list Z) (i v k x : Z) :
  JS.index data k = Some x ->
  JS.index (JS.u8_set data i v) k = Some (if k =? i then v mod 256 else x).
Proof.
  intros Hk. destruct (Z.eqb_spec k i) as [->|Hne].
  - apply index_u8_set_eq. unfold JS.index in Hk.
    destruct (Z.ltb_spec i 0); [discriminate|].
    apply lookup_lt_Some in Hk. lia.
  - now rewrite index_u8_set_ne.
Qed.

Lemma painted_u8_set (m : Z) (data : list Z) (i v : Z) :
  channel_ok i (v mod 256) ->
  painted_below m data -> painted_below m (JS.u8_set data i v).
Proof.
  intros Hv [Hlen Hbytes]. split; [now rewrite length_u8_set|].
  intros j Hj. destruct (Hbytes j Hj) as (x & Hx & Hok).
  rewrite (index_u8_set_cases _ _ _ _ _ Hx).
  destruct (Z.eqb_spec j i) as [->|Hne]; eauto.
Qed.

Lemma painted_evolveCell (width y x : Z) (data : list Z) :
  painted_below n data -> painted_below n (Rule30Texture.evolveCell width y x data).
Proof.
  intros Hd. unfold Rule30Texture.evolveCell.
  set (state := Rule30Texture.nextState _).
  assert (Hstate : state = 0 \/ state = 1).
  { unfold state, Rule30Texture.nextState.
    destruct (_ || _); auto. }
  apply painted_u8_set; [|apply painted_u8_set; [|exact Hd]].
  - change (255 mod 256) with 255. repeat split; intros; Z.div_mod_to_equations; lia.
  - destruct Hstate as [-> | ->];
      [change (0 * 255 mod 256) with 0 | change (1 * 255 mod 256) with 255];
      repeat split; intros; Z.div_mod_to_equations; lia.
Qed.

Lemma painted_clear (m : Z) (data : list Z) :
  n = m * 4 -> 0 <= m -> Z.of_nat (length data) = n ->
  painted_below n (Rule30Texture.clear n data).
Proof.
  intros -> Hm Hlen. unfold Rule30Texture.clear, JS.for_lt_step4.
  replace ((m * 4 + 3) / 4) with m by (apply Z.div_unique with 3; lia).
  pose (P := fun (j : Z) (d : list Z) =>
    Z.of_nat (length d) = m * 4 /\
    forall b, 0 <= b < j * 4 -> exists x, JS.index d b = Some x /\ channel_ok b x).
  assert (HP : P m (JS.for_lt m
    (fun k data =>
       JS.u8_set (JS.u8_set (JS.u8_set (JS.u8_set data (4 * k) 0) (4 * k + 1) 0)
                    (4 * k + 2) 0) (4 * k + 3) 255) data)).
  { apply (for_lt_ind P); [exact Hm | split; [exact Hlen | intros; lia] |].
    intros j d Hj [Hd Hpre]. split; [now rewrite !length_u8_set|].
    intros b Hb.
    assert (Hin : exists x, JS.index d b = Some x).
    { rewrite index_nonneg by lia. apply lookup_lt_is_Some_2. lia. }
    destruct Hin as (x & Hx).
    rewrite (index_u8_set_cases _ _ _ b _
               (index_u8_set_cases _ _ _ b _
                  (index_u8_set_cases _ _ _ b _
                     (index_u8_set_cases _ _ _ b _ Hx)))).
    eexists. split; [reflexivity|].
    destruct (Z.eqb_spec b (4 * j + 3)) as [->|H3]; [cbn; repeat split; intros; Z.div_mod_to_equations; lia|].
    destruct (Z.eqb_spec b (4 * j + 2)) as [->|H2]; [cbn; repeat split; intros; Z.div_mod_to_equations; lia|].
    destruct (Z.eqb_spec b (4 * j + 1)) as [->|H1]; [cbn; repeat split; intros; Z.div_mod_to_equations; lia|].
    destruct (Z.eqb_spec b (4 * j)) as [->|H0]; [cbn; repeat split; intros; Z.div_mod_to_equations; lia|].
    destruct (Hpre b ltac:(lia)) as (x' & Hx' & Hok).
    rewrite Hx in Hx'. injection Hx' as ->. exact Hok. }
  exact HP.
Qed.

End TextureChannels.

(** X3. Whenever [createRule30Texture] returns, every texel of the buffer
    is opaque and pure red or black: red is 0 or 255, green and blue are 0
    and alpha is 255. *)
Theorem texels_are_opaque_red_or_black (width height k : Z) :
  0 <= width * height -> 0 <= k < width * height ->
  exists data red,
    Rule30Texture.createRule30Texture width height
    = JS.Ok (Rule30Texture.mkDataTexture data width height) /\
    Z.of_nat (length data) = width * height * 4 /\
    JS.index data (k * 4) = Some red /\ (red = 0 \/ red = 255) /\
    JS.index data (k * 4 + 1) = Some 0 /\
    JS.index data (k * 4 + 2) = Some 0 /\
    JS.index data (k * 4 + 3) = Some 255.
Proof.
  intros Hn Hk. unfold Rule30Texture.createRule30Texture, JS.Uint8Array_new.
  destruct (Z.ltb_spec (width * height * 4) 0); [lia|]. cbn [JS.bind].
  set (n := width * height * 4).
  match goal with
  | |- exists data red, JS.Ok (Rule30Texture.mkDataTexture ?d _ _) = _ /\ _ =>
      assert (Hpainted :
        Z.of_nat (length d) = n /\
        forall j, 0 <= j < n -> exists x, JS.index d j = Some x /\
          ((j mod 4 = 0 -> x = 0 \/ x = 255) /\ (j mod 4 = 1 -> x = 0) /\
           (j mod 4 = 2 -> x = 0) /\ (j mod 4 = 3 -> x = 255)))
  end.
  { apply (for_lt_preserves (fun d =>
      Z.of_nat (length d) = n /\
      forall j, 0 <= j < n -> exists x, JS.index d j = Some x /\
        ((j mod 4 = 0 -> x = 0 \/ x = 255) /\ (j mod 4 = 1 -> x = 0) /\
         (j mod 4 = 2 -> x = 0) /\ (j mod 4 = 3 -> x = 255)))).
    { intros y d Hd. apply for_lt_preserves; [|exact Hd].
      intros x d' Hd'. now apply painted_evolveCell. }
    apply painted_u8_set;
      [change (255 mod 256) with 255; repeat split; intros; Z.div_mod_to_equations; lia|].
    apply (painted_clear n (width * height)); [reflexivity | exact Hn |].
    rewrite length_replicate. lia. }
  destruct Hpainted as [Hlen Hbytes].
  destruct (Hbytes (k * 4) ltac:(lia)) as (r & Hr & Hr0 & _).
  destruct (Hbytes (k * 4 + 1) ltac:(lia)) as (g & Hg & _ & Hg1 & _).
  destruct (Hbytes (k * 4 + 2) ltac:(lia)) as (b & Hb & _ & _ & Hb2 & _).
  destruct (Hbytes (k * 4 + 3) ltac:(lia)) as (a & Ha & _ & _ & _ & Ha3).
  eexists _, r. split; [reflexivity|]. split; [exact Hlen|].
  split; [exact Hr|]. split; [apply Hr0; Z.div_mod_to_equations; lia|].
  rewrite Hg, Hb, Ha, Hg1, Hb2, Ha3 by (Z.div_mod_to_equations; lia). auto.
Qed.

Lemma texels_are_opaque_red_or_black_witness :
  exists data red,
    Rule30Texture.createRule30Texture 3 2
    = JS.Ok (Rule30Texture.mkDataTexture data 3 2) /\
    Z.of_nat (length data) = 3 * 2 * 4 /\
    JS.index data (4 * 4) = Some red /\ (red = 0 \/ red = 255) /\
    JS.index data (4 * 4 + 1) = Some 0 /\
    JS.index data (4 * 4 + 2) = Some 0 /\
    JS.index data (4 * 4 + 3) = Some 255.
Proof.
  apply (texels_are_opaque_red_or_black 3 2 4); lia.
Defined.

(** ** The instanced display *)

Section Instances.
Import Rule30Instances.

Lemma iter_from_fold {S : Type} (body : Z -> S -> S) (k : nat) :
  forall (i : Z) (s : S),
    JS.iter_from k i body s
    = fold_left (fun s j => body j s) (seqZ i (Z.of_nat k)) s.
Proof.
  induction k as [|k IH]; intros i s; [reflexivity|].
  rewrite seqZ_cons by lia. cbn [JS.iter_from fold_left]. rewrite IH.
  do 2 f_equal; lia.
Qed.

(** A counting loop is a fold over its range. *)
Lemma for_lt_fold {S : Type} (n : Z) (body : Z -> S -> S) (s : S) :
  JS.for_lt n body s = fold_left (fun s j => body j s) (seqZ 0 n) s.
Proof.
  unfold JS.for_lt. rewrite iter_from_fold.
  destruct (Z.le_gt_cases 0 n).
  - now rewrite Z2Nat.id.
  - rewrite (seqZ_nil 0 n) by lia. replace (Z.to_nat n) with O by lia. reflexivity.
Qed.

(** Appending the instances of a list of cells, from a running count. *)
Local Abbreviation pushAll width cells state :=
  (fold_left
     (fun (st : Z * InstancedMesh) (a : Z * Z) =>
        (st.1 + 1, setMatrixAt st.2 st.1 (cellPosition width a.2 a.1)))
     cells state).

Lemma row_loop (width : Z) (gen : list Z) (y : Z) (xs : list Z) :
  forall state,
    fold_left (fun st x => placeCell width gen y x st) xs state
    = pushAll width (x ← xs; if isLive gen x then [(y, x)] else []) state.
Proof.
  induction xs as [|x xs IH]; intros [count cells]; [reflexivity|].
  rewrite bind_cons, fold_left_app. cbn [fold_left]. rewrite IH.
  unfold placeCell. destruct (isLive gen x); reflexivity.
Qed.

Lemma grid_loop (width : Z) (generations : list (list Z)) (ys : list Z) :
  forall state,
    fold_left
      (fun st y =>
         JS.for_lt width
           (fun x st => placeCell width (default [] (JS.index generations y)) y x st) st)
      ys state
    = pushAll width
        (y ← ys; x ← seqZ 0 width;
         if isLive (default [] (JS.index generations y)) x then [(y, x)] else [])
        state.
Proof.
  induction ys as [|y ys IH]; intros state; [reflexivity|].
  rewrite bind_cons, fold_left_app. cbn [fold_left].
  rewrite IH, for_lt_fold, row_loop. reflexivity.
Qed.

Lemma length_setMatrixAt (mesh : InstancedMesh) (i : Z) (m : Vec3) :
  length (instanceMatrix (setMatrixAt mesh i m)) = length (instanceMatrix mesh).
Proof.
  unfold setMatrixAt. cbn. destruct (i <? 0); [reflexivity | apply length_insert].
Qed.

(** After pushing [cells] from count [c], slot [c + i] holds the instance
    of the [i]-th cell when it exists, and every other slot is untouched. *)
Lemma pushAll_spec (width : Z) (cells : list (Z * Z)) :
  forall (c : Z) (mesh : InstancedMesh), 0 <= c ->
    let final := pushAll width cells (c, mesh) in
    final.1 = c + Z.of_nat (length cells) /\
    length (instanceMatrix final.2) = length (instanceMatrix mesh) /\
    forall j : nat,
      instanceMatrix final.2 !! j
      = match cells !! (j - Z.to_nat c)%nat with
        | Some a =>
            if decide (Z.to_nat c <= j < length (instanceMatrix mesh))%nat
            then Some (cellPosition width a.2 a.1)
            else instanceMatrix mesh !! j
        | None => instanceMatrix mesh !! j
        end.
Proof.
  induction cells as [|a cells IH] using rev_ind; intros c mesh Hc; cbv zeta.
  - cbn. split; [lia | split; [reflexivity|]]. intros j. reflexivity.
  - rewrite fold_left_app. cbn [fold_left].
    destruct (IH c mesh Hc) as (Hcount & Hlen & Hslots). cbv zeta in *.
    destruct (pushAll width cells (c, mesh)) as [count cells'] eqn:Hrun.
    cbn [fst snd] in *. subst count.
    split; [rewrite length_app; cbn; lia|].
    split; [now rewrite length_setMatrixAt|].
    intros j. unfold setMatrixAt. cbn [instanceMatrix].
    destruct (Z.ltb_spec (c + Z.of_nat (length cells)) 0); [lia|].
    rewrite list_lookup_insert, Hlen.
    replace (Z.to_nat (c + Z.of_nat (length cells)))
      with (Z.to_nat c + length cells)%nat by lia.
    destruct (decide (Z.to_nat c + length cells = j
                      /\ Z.to_nat c + length cells < length (instanceMatrix mesh))%nat)
      as [[<- Hcap]|Hne].
    + replace (Z.to_nat c + length cells - Z.to_nat c)%nat with (length cells) by lia.
      rewrite list_lookup_middle by reflexivity.
      destruct (decide _) as [_|Hno]; [reflexivity | lia].
    + rewrite Hslots.
      destruct (decide (j - Z.to_nat c < length cells)%nat) as [Hlt|Hge].
      * rewrite lookup_app_l by exact Hlt. reflexivity.
      * rewrite (lookup_ge_None_2 cells) by lia.
        destruct (decide (j - Z.to_nat c = length cells)%nat) as [Heq|Hneq].
        -- rewrite Heq, list_lookup_middle by reflexivity.
           destruct (decide _) as [Hin|_]; [lia | reflexivity].
        -- rewrite (lookup_ge_None_2 (cells ++ [a])); [reflexivity|].
           rewrite length_app. cbn. lia.
Qed.

End Instances.

Section InstanceList.
Import Rule30Instances.

Lemma isLive_spec (generations : list (list Z)) (y x : Z) :
  isLive (default [] (JS.index generations y)) x = true <->
  exists gen, JS.index generations y = Some gen /\ JS.index gen x = Some 1.
Proof.
  unfold isLive. destruct (JS.index generations y) as [gen|].
  - change (default [] (Some gen)) with gen.
    destruct (JS.index gen x) as [v|] eqn:Hv.
    + split.
      * intros Heq%Z.eqb_eq. subst v. eauto.
      * intros (gen' & [= <-] & Hx). rewrite Hv in Hx. injection Hx as ->. reflexivity.
    + split; [discriminate|]. intros (gen' & [= <-] & Hx). congruence.
  - change (default [] (@None (list Z))) with (@nil Z).
    unfold JS.index. destruct (x <? 0); cbn;
      (split; [discriminate|]); intros (gen' & Hgen & _); discriminate.
Qed.

Lemma elem_of_liveCells (width maxGens : Z) (generations : list (list Z)) (y x : Z) :
  (y, x) ∈ liveCells width maxGens generations <->
  0 <= y < maxGens /\ 0 <= x < width /\
  exists gen, JS.index generations y = Some gen /\ JS.index gen x = Some 1.
Proof.
  unfold liveCells. rewrite list_elem_of_bind. split.
  - intros (y' & Hin & Hy%elem_of_seqZ).
    apply list_elem_of_bind in Hin as (x' & Hin & Hx%elem_of_seqZ).
    destruct (isLive _ x') eqn:Hlive; [|now apply elem_of_nil in Hin].
    apply list_elem_of_singleton in Hin as [= -> ->].
    apply isLive_spec in Hlive. repeat split; try lia. exact Hlive.
  - intros (Hy & Hx & Hlive). exists y. split; [|apply elem_of_seqZ; lia].
    apply list_elem_of_bind. exists x. split; [|apply elem_of_seqZ; lia].
    apply isLive_spec in Hlive. rewrite Hlive. now apply list_elem_of_singleton.
Qed.

Lemma row_sorted (live : Z -> bool) (y : Z) (k : nat) :
  forall x0,
    StronglySorted before (x ← seqZ x0 (Z.of_nat k); if live x then [(y, x)] else []).
Proof.
  induction k as [|k IH]; intros x0; [constructor|].
  rewrite seqZ_cons by lia. rewrite bind_cons.
  replace (Z.pred (Z.of_nat (S k))) with (Z.of_nat k) by lia.
  apply StronglySorted_app_2; [| |apply IH].
  - intros a b Ha Hb. destruct (live x0); [|now apply elem_of_nil in Ha].
    apply list_elem_of_singleton in Ha as ->.
    apply list_elem_of_bind in Hb as (x & Hb & Hx%elem_of_seqZ).
    destruct (live x); [|now apply elem_of_nil in Hb].
    apply list_elem_of_singleton in Hb as ->. right. cbn. lia.
  - destruct (live x0); repeat constructor.
Qed.

Lemma liveCells_sorted (width maxGens : Z) (generations : list (list Z)) :
  StronglySorted before (liveCells width maxGens generations).
Proof.
  unfold liveCells.
  assert (Hgen : forall (k : nat) y0,
    StronglySorted before
      (y ← seqZ y0 (Z.of_nat k); x ← seqZ 0 width;
       if isLive (default [] (JS.index generations y)) x then [(y, x)] else [])).
  { induction k as [|k IH]; intros y0; [constructor|].
    rewrite (seqZ_cons y0) by lia. rewrite bind_cons.
    replace (Z.pred (Z.of_nat (S k))) with (Z.of_nat k) by lia.
    apply StronglySorted_app_2; [| |apply IH].
    - intros a b Ha Hb.
      apply list_elem_of_bind in Ha as (x & Ha & _).
      destruct (isLive _ x); [|now apply elem_of_nil in Ha].
      apply list_elem_of_singleton in Ha as ->.
      apply list_elem_of_bind in Hb as (y & Hb & Hy%elem_of_seqZ).
      apply list_elem_of_bind in Hb as (x' & Hb & _).
      destruct (isLive _ x'); [|now apply elem_of_nil in Hb].
      apply list_elem_of_singleton in Hb as ->. left. cbn. lia.
    - destruct (Z.le_gt_cases 0 width).
      + rewrite <- (Z2Nat.id width) by lia. apply row_sorted.
      + rewrite (seqZ_nil 0 width) by lia. constructor. }
  destruct (Z.le_gt_cases 0 maxGens).
  - rewrite <- (Z2Nat.id maxGens) by lia. apply Hgen.
  - rewrite (seqZ_nil 0 maxGens) by lia. constructor.
Qed.

Lemma length_bind_le {A B : Type} (f : A -> list B) (b : nat) (l : list A) :
  (forall a, length (f a) <= b)%nat -> (length (l ≫= f) <= length l * b)%nat.
Proof.
  intros Hf. induction l as [|a l IH]; [cbn; lia|].
  rewrite bind_cons, length_app. specialize (Hf a). cbn [length]. lia.
Qed.

Lemma length_liveCells (width maxGens : Z) (generations : list (list Z)) :
  (length (liveCells width maxGens generations) <= Z.to_nat maxGens * Z.to_nat width)%nat.
Proof.
  unfold liveCells.
  etransitivity; [apply (length_bind_le _ (Z.to_nat width))|now rewrite length_seqZ].
  intros y. etransitivity; [apply (length_bind_le _ 1%nat)|rewrite length_seqZ; lia].
  intros x. destruct (isLive _ x); cbn; lia.
Qed.

Lemma updateCells_run (frame : Z) (mesh : InstancedMesh)
    (generations : list (list Z)) (seed : list Z) :
  JS.index generations 0 = Some seed ->
  updateCells frame (Some mesh) generations
  = let final :=
      fold_left
        (fun (st : Z * InstancedMesh) (a : Z * Z) =>
           (st.1 + 1,
            setMatrixAt st.2 st.1 (cellPosition (Z.of_nat (length seed)) a.2 a.1)))
        (liveCells (Z.of_nat (length seed))
           (Z.min (frame + 1) (Z.of_nat (length generations))) generations)
        (0, mesh) in
    Some (mkInstancedMesh final.1 (instanceMatrix final.2)).
Proof.
  intros Hseed. unfold updateCells. rewrite Hseed. cbn [default].
  destruct (Z.eqb_spec (Z.of_nat (length generations)) 0) as [Hlen|_].
  { destruct generations; [discriminate | cbn in Hlen; lia]. }
  rewrite for_lt_fold, grid_loop. cbv zeta. unfold liveCells.
  destruct (fold_left _ _ _) as [count cells]. reflexivity.
Qed.

End InstanceList.

(** What the effect leaves in the mesh, on a non-empty list of rows. *)
Lemma updateCells_slots
  (frame : Z) (mesh : Rule30Instances.InstancedMesh)
  (generations : list (list Z)) (seed : list Z) :
  JS.index generations 0 = Some seed ->
  let width := Z.of_nat (length seed) in
  let maxGens := Z.min (frame + 1) (Z.of_nat (length generations)) in
  let cells := Rule30Instances.liveCells width maxGens generations in
  exists mesh',
    Rule30Instances.updateCells frame (Some mesh) generations = Some mesh' /\
    Rule30Instances.count mesh' = Z.of_nat (length cells) /\
    length (Rule30Instances.instanceMatrix mesh')
    = length (Rule30Instances.instanceMatrix mesh) /\
    (forall (j : nat) y x,
       cells !! j = Some (y, x) ->
       (j < length (Rule30Instances.instanceMatrix mesh))%nat ->
       Rule30Instances.instanceMatrix mesh' !! j
       = Some (Rule30Instances.cellPosition width x y)) /\
    (forall j : nat,
       (length cells <= j)%nat ->
       Rule30Instances.instanceMatrix mesh' !! j
       = Rule30Instances.instanceMatrix mesh !! j).
Proof.
  intros Hseed width maxGens cells.
  rewrite (updateCells_run frame mesh generations seed Hseed). cbv zeta.
  fold width maxGens cells.
  destruct (pushAll_spec width cells 0 mesh ltac:(lia)) as (Hcount & Hlen & Hslots).
  cbv zeta in Hcount, Hlen, Hslots.
  eexists. split; [reflexivity|]. cbn [Rule30Instances.count Rule30Instances.instanceMatrix].
  split; [rewrite Hcount; lia|]. split; [exact Hlen|]. split.
  - intros j y x Hj Hcap. rewrite Hslots.
    replace (j - Z.to_nat 0)%nat with j by lia. rewrite Hj.
    destruct (decide _) as [_|Hno]; [reflexivity | lia].
  - intros j Hj. rewrite Hslots.
    rewrite (lookup_ge_None_2 cells) by lia. reflexivity.
Qed.

(** X4. On a non-empty list of rows the display effect sets [count] to the
    number of live cells in the revealed rows and writes the position of the
    [j]-th of them, in row-major order, into slot [j] of the matrix buffer;
    the buffer keeps its length and the slots from [count] on are untouched.
    Without a mesh, or without rows, the effect does nothing. *)
Theorem instances_fill_the_first_slots
  (frame : Z) (mesh : Rule30Instances.InstancedMesh)
  (generations : list (list Z)) (seed : list Z) :
  JS.index generations 0 = Some seed ->
  let width := Z.of_nat (length seed) in
  let maxGens := Z.min (frame + 1) (Z.of_nat (length generations)) in
  let cells := Rule30Instances.liveCells width maxGens generations in
  Rule30Instances.updateCells frame None generations = None /\
  Rule30Instances.updateCells frame (Some mesh) [] = Some mesh /\
  exists mesh',
    Rule30Instances.updateCells frame (Some mesh) generations = Some mesh' /\
    Rule30Instances.count mesh' = Z.of_nat (length cells) /\
    length (Rule30Instances.instanceMatrix mesh')
    = length (Rule30Instances.instanceMatrix mesh) /\
    (forall (j : nat) y x,
       cells !! j = Some (y, x) ->
       (j < length (Rule30Instances.instanceMatrix mesh))%nat ->
       Rule30Instances.instanceMatrix mesh' !! j
       = Some (Rule30Instances.cellPosition width x y)) /\
    (forall j : nat,
       (length cells <= j)%nat ->
       Rule30Instances.instanceMatrix mesh' !! j
       = Rule30Instances.instanceMatrix mesh !! j).
Proof.
  intros Hseed width maxGens cells.
  split; [reflexivity|]. split; [reflexivity|].
  destruct (updateCells_slots frame mesh generations seed Hseed)
    as (mesh' & Hrun & Hcount & Hlen & Hslots & Hrest).
  exists mesh'. repeat split; assumption.
Qed.

Lemma instances_fill_the_first_slots_witness :
  exists mesh',
    Rule30Instances.updateCells 1
      (Some (Rule30Instances.mkInstancedMesh 0 (replicate 6 (0, 0, 0)%R)))
      [[0; 1; 0]; [1; 1; 1]]
    = Some mesh' /\
    Rule30Instances.count mesh' = 4.
Proof.
  destruct (instances_fill_the_first_slots 1
              (Rule30Instances.mkInstancedMesh 0 (replicate 6 (0, 0, 0)%R))
              [[0; 1; 0]; [1; 1; 1]] [0; 1; 0] eq_refl)
    as (_ & _ & mesh' & Hrun & Hcount & _).
  exists mesh'. exact (conj Hrun Hcount).
Defined.

(** X5. The instances drawn after the effect are exactly the live cells of
    the rows [0 .. frame] that exist, each once, in strictly ascending
    row-major order: [count] is their number and the position in slot [j]
    is that of the [j]-th of them. *)
Theorem instances_are_the_live_cells_in_row_major_order
  (frame : Z) (mesh : Rule30Instances.InstancedMesh)
  (generations : list (list Z)) (seed : list Z) :
  JS.index generations 0 = Some seed ->
  exists mesh' cells,
    Rule30Instances.updateCells frame (Some mesh) generations = Some mesh' /\
    Rule30Instances.count mesh' = Z.of_nat (length cells) /\
    (forall y x,
       (y, x) ∈ cells <->
       0 <= y <= frame /\ 0 <= x < Z.of_nat (length seed) /\
       Rule30Visualization.live generations y x) /\
    StronglySorted Rule30Instances.before cells /\
    forall (j : nat) y x,
      cells !! j = Some (y, x) ->
      (j < length (Rule30Instances.instanceMatrix mesh))%nat ->
      Rule30Instances.instanceMatrix mesh' !! j
      = Some (Rule30Instances.cellPosition (Z.of_nat (length seed)) x y).
Proof.
  intros Hseed.
  destruct (updateCells_slots frame mesh generations seed Hseed)
    as (mesh' & Hrun & Hcount & _ & Hslots & _).
  cbv zeta in Hcount, Hslots.
  exists mesh', (Rule30Instances.liveCells (Z.of_nat (length seed))
                   (Z.min (frame + 1) (Z.of_nat (length generations))) generations).
  split; [exact Hrun|]. split; [exact Hcount|]. split; [|split].
  - intros y x. rewrite elem_of_liveCells. unfold Rule30Visualization.live. split.
    + intros (Hy & Hx & Hlive). repeat split; try lia. exact Hlive.
    + intros (Hy & Hx & gen & Hgen & Hcell). repeat split; try lia; [|eauto].
      rewrite index_nonneg in Hgen by lia. apply lookup_lt_Some in Hgen. lia.
  - apply liveCells_sorted.
  - exact Hslots.
Qed.

Lemma instances_are_the_live_cells_in_row_major_order_witness :
  exists mesh' cells,
    Rule30Instances.updateCells 0
      (Some (Rule30Instances.mkInstancedMesh 0 (replicate 6 (0, 0, 0)%R)))
      [[0; 1; 0]; [1; 1; 1]]
    = Some mesh' /\
    Rule30Instances.count mesh' = Z.of_nat (length cells) /\
    forall y x,
      (y, x) ∈ cells <->
      0 <= y <= 0 /\ 0 <= x < 3 /\
      Rule30Visualization.live [[0; 1; 0]; [1; 1; 1]] y x.
Proof.
  destruct (instances_are_the_live_cells_in_row_major_order 0
              (Rule30Instances.mkInstancedMesh 0 (replicate 6 (0, 0, 0)%R))
              [[0; 1; 0]; [1; 1; 1]] [0; 1; 0] eq_refl)
    as (mesh' & cells & Hrun & Hcount & Hmem & _).
  exists mesh', cells. exact (conj Hrun (conj Hcount Hmem)).
Defined.

(** X6. The mesh that [Rule30Visualization] allocates,
    [width * maxGenerations] instances, has room for every live cell: on
    the generated grid no [setMatrixAt] falls outside the buffer, [count]
    never exceeds the capacity, and every live cell of a revealed row has
    its position in one of the first [count] slots. *)
Theorem mesh_has_room_for_every_live_cell (width maxGenerations frame : Z) :
  0 < width -> 0 < maxGenerations ->
  exists generations mesh mesh',
    Rule30Visualization.allGenerations width maxGenerations = JS.Ok generations /\
    Rule30Instances.create (width * maxGenerations) = JS.Ok mesh /\
    Rule30Instances.updateCells frame (Some mesh) generations = Some mesh' /\
    Z.of_nat (length (Rule30Instances.instanceMatrix mesh')) = width * maxGenerations /\
    0 <= Rule30Instances.count mesh' <= width * maxGenerations /\
    forall y x,
      Rule30Visualization.live generations y x -> y <= frame ->
      exists j : nat,
        Z.of_nat j < Rule30Instances.count mesh' /\
        Rule30Instances.instanceMatrix mesh' !! j
        = Some (Rule30Instances.cellPosition width x y).
Proof.
  intros Hw Hg.
  set (generations := Automaton.evolveCellularAutomaton width maxGenerations).
  set (mesh := Rule30Instances.mkInstancedMesh 0
                 (replicate (Z.to_nat (width * maxGenerations)) (0, 0, 0)%R)).
  assert (Hseed : JS.index generations 0 = Some (Automaton.seed width))
    by (unfold generations; now rewrite index_evolve by lia).
  assert (Hwidth : Z.of_nat (length (Automaton.seed width)) = width)
    by (apply seed_is_row; lia).
  assert (Hrows : Z.of_nat (length generations) = maxGenerations).
  { unfold generations, Automaton.evolveCellularAutomaton.
    rewrite length_fmap, length_seq. lia. }
  destruct (updateCells_slots frame mesh generations _ Hseed)
    as (mesh' & Hrun & Hcount & Hlen & Hslots & _).
  cbv zeta in Hcount, Hslots. rewrite Hwidth, Hrows in Hcount, Hslots.
  pose proof (length_liveCells width (Z.min (frame + 1) maxGenerations) generations) as Hle.
  assert (Hcap : Z.of_nat (length (Rule30Instances.instanceMatrix mesh))
                 = width * maxGenerations)
    by (unfold mesh; cbn; rewrite length_replicate; nia).
  exists generations, mesh, mesh'.
  split; [now apply allGenerations_spec|]. split.
  { unfold Rule30Instances.create. destruct (Z.ltb_spec (width * maxGenerations) 0);
      [nia | reflexivity]. }
  split; [exact Hrun|]. split; [rewrite Hlen; exact Hcap|]. split; [nia|].
  intros y x (gen & Hgen & Hcell) Hy.
  assert (Hyr : 0 <= y < maxGenerations).
  { unfold JS.index in Hgen. destruct (Z.ltb_spec y 0); [discriminate|].
    apply lookup_lt_Some in Hgen. lia. }
  assert (Hgen' : gen = Automaton.row Automaton.RULE30 width (Z.to_nat y)).
  { unfold generations in Hgen. rewrite index_evolve in Hgen by lia. congruence. }
  assert (Hxr : 0 <= x < width).
  { unfold JS.index in Hcell. destruct (Z.ltb_spec x 0); [discriminate|].
    apply lookup_lt_Some in Hcell.
    destruct (row_is_row width (Z.to_nat y) ltac:(lia)) as [Hl _].
    rewrite <- Hgen' in Hl. lia. }
  assert (Hin : (y, x) ∈ Rule30Instances.liveCells width
                           (Z.min (frame + 1) maxGenerations) generations).
  { apply elem_of_liveCells. repeat split; try lia. eauto. }
  apply list_elem_of_lookup_1 in Hin as [j Hj].
  pose proof (lookup_lt_Some _ _ _ Hj) as Hjlt.
  exists j. split; [lia|]. apply Hslots; [exact Hj | nia].
Qed.

Lemma mesh_has_room_for_every_live_cell_witness :
  exists generations mesh mesh',
    Rule30Visualization.allGenerations 5 3 = JS.Ok generations /\
    Rule30Instances.create (5 * 3) = JS.Ok mesh /\
    Rule30Instances.updateCells 1 (Some mesh) generations = Some mesh' /\
    Z.of_nat (length (Rule30Instances.instanceMatrix mesh')) = 5 * 3 /\
    0 <= Rule30Instances.count mesh' <= 5 * 3.
Proof.
  destruct (mesh_has_room_for_every_live_cell 5 3 1 ltac:(lia) ltac:(lia))
    as (generations & mesh & mesh' & H1 & H2 & H3 & H4 & H5 & _).
  exists generations, mesh, mesh'. exact (conj H1 (conj H2 (conj H3 (conj H4 H5)))).
Defined.

(** X7. The frame counter advances by one per animation frame until it
    reaches [generations.length - 1] and then stays: after [n] frames it is
    [max(0, min(n, length - 1))], so it never indexes past the last row, and
    from frame [length - 1] on every row is revealed. *)
Theorem frame_counter_saturates (generations : list (list Z)) (n : nat) :
  let rows := Z.of_nat (length generations) in
  Rule30Instances.frameAfter generations n = Z.max 0 (Z.min (Z.of_nat n) (rows - 1)) /\
  Z.min (Rule30Instances.frameAfter generations n + 1) rows
  = Z.min (Z.of_nat n + 1) rows.
Proof.
  cbv zeta.
  assert (Hframe : Rule30Instances.frameAfter generations n
                   = Z.max 0 (Z.min (Z.of_nat n) (Z.of_nat (length generations) - 1))).
  { induction n as [|n IH]; [cbn; lia|].
    unfold Rule30Instances.frameAfter in *. rewrite Nat.iter_succ, IH.
    unfold Rule30Instances.nextFrame.
    destruct (Z.ltb_spec (Z.max 0 (Z.min (Z.of_nat n) (Z.of_nat (length generations) - 1)))
                (Z.of_nat (length generations) - 1)); lia. }
  split; [exact Hframe | lia].
Qed.

(** ** Levels and counts of the element trees *)

Section LevelFacts.
Context {A : Type} (sub : A -> list A) (depth : A -> Z).
Hypothesis sub_leaf : forall a, depth a <= 0 -> sub a = [].
Hypothesis sub_depth : forall a c, In c (sub a) -> depth c = depth a - 1.

Local Abbreviation tree a := (Solid.unfold sub (Z.to_nat (depth a)) a).

(** A relation between the root and a node [k] levels down that holds at
    the root and passes from a node to its children holds on the whole
    tree. *)
Lemma at_level_invariant (R : nat -> A -> A -> Prop) (a : A) :
  R O a a ->
  (forall k b c, R k a b -> In c (sub b) -> R (S k) a c) ->
  forall k t, Solid.at_level k (tree a) t -> R k a (Solid.root t).
Proof.
  intros Hroot Hstep.
  assert (Hgen : forall k j b t,
             R j a b -> Solid.at_level k (tree b) t -> R (j + k)%nat a (Solid.root t)).
  { induction k as [|k IH]; intros j b t Hb Hat.
    - inversion Hat; subst. rewrite root_unfold, Nat.add_0_r. exact Hb.
    - rewrite (tree_unfold sub depth sub_leaf sub_depth) in Hat.
      inversion Hat as [|k' a' cs c t' Hin Hsub]; subst.
      apply in_map_iff in Hin as (b' & <- & Hb').
      replace (j + S k)%nat with (S j + k)%nat by lia.
      apply (IH (S j) b'); [now apply (Hstep j b) | exact Hsub]. }
  intros k t Hat. apply (Hgen k O a t Hroot Hat).
Qed.

Variable branching : Z.
Hypothesis sub_branching :
  forall a, 0 < depth a -> Z.of_nat (length (sub a)) = branching.

Lemma meshes_children (K : Z) (cs : list (Solid.Tree A)) :
  (forall c, In c cs -> (branching - 1) * Z.of_nat (Scene.meshes c) + 1 = K) ->
  (branching - 1) * Z.of_nat (fold_right (fun c n => (Scene.meshes c + n)%nat) O cs)
  + Z.of_nat (length cs)
  = Z.of_nat (length cs) * K.
Proof.
  induction cs as [|c cs IH]; intros Hall; [cbn; lia|].
  cbn [fold_right length]. specialize (IH (fun c' H => Hall c' (or_intror H))).
  pose proof (Hall c (or_introl eq_refl)). lia.
Qed.

(** A tree of depth [n] with [branching] children below every inner node. *)
Lemma meshes_tree (n : nat) :
  forall a, depth a = Z.of_nat n ->
    (branching - 1) * Z.of_nat (Scene.meshes (tree a)) + 1 = branching ^ (Z.of_nat n + 1).
Proof.
  induction n as [|n IH]; intros a Ha;
    rewrite (tree_unfold sub depth sub_leaf sub_depth); cbn [Scene.meshes].
  - rewrite sub_leaf by lia. cbn [map fold_right]. lia.
  - pose proof (meshes_children (branching ^ (Z.of_nat n + 1)) (map (fun c => tree c) (sub a)))
      as Hsum.
    rewrite length_map, (sub_branching a) in Hsum by lia.
    replace (Z.of_nat (S n) + 1) with (Z.succ (Z.of_nat n + 1)) by lia.
    rewrite Z.pow_succ_r by lia.
    rewrite Nat2Z.inj_succ.
    cut ((branching - 1) *
         Z.of_nat (fold_right (fun c m => (Scene.meshes c + m)%nat) O
                     (map (fun c => tree c) (sub a)))
         + branching = branching * branching ^ (Z.of_nat n + 1)); [lia|].
    apply Hsum. intros c Hc. apply in_map_iff in Hc as (b & <- & Hb).
    apply IH. rewrite (sub_depth a b Hb). lia.
Qed.

End LevelFacts.

(** X8. The number of meshes of a fully revealed solid of depth [d >= 0] is
    the geometric sum of its branching: [(20^(d+1) - 1) / 19] cubes for the
    sponge, [(4^(d+1) - 1) / 3] for the tetrahedron and for the torus. *)
Theorem mesh_counts
  (cube : Cube.Props) (tetra : Tetrahedron.Props) (torus : Torus.Props) :
  0 <= Cube.depth cube -> 0 <= Tetrahedron.depth tetra -> 0 <= Torus.depth torus ->
  19 * Z.of_nat (Scene.meshes (Cube.tree cube)) + 1 = 20 ^ (Cube.depth cube + 1) /\
  3 * Z.of_nat (Scene.meshes (Tetrahedron.tree tetra)) + 1
  = 4 ^ (Tetrahedron.depth tetra + 1) /\
  3 * Z.of_nat (Scene.meshes (Torus.tree torus)) + 1 = 4 ^ (Torus.depth torus + 1).
Proof.
  intros Hc Ht Hr.
  assert (Hleaf : forall a, Torus.depth a <= 0 -> map Torus.props (Torus.childTori true a) = [])
    by (intros a Ha; now rewrite childTori_leaf).
  split; [|split].
  - pose proof (meshes_tree Cube.elements Cube.depth childCubes_leaf childCubes_depth 20)
      as Hcount.
    replace (Cube.depth cube + 1) with (Z.of_nat (Z.to_nat (Cube.depth cube)) + 1) by lia.
    apply Hcount; [|lia].
    intros a Ha. change (Cube.elements a) with (Cube.childCubes true a).
    rewrite childCubes_cells by lia. reflexivity.
  - pose proof (meshes_tree Tetrahedron.elements Tetrahedron.depth
                  childTetrahedra_leaf childTetrahedra_depth 4) as Hcount.
    replace (Tetrahedron.depth tetra + 1) with (Z.of_nat (Z.to_nat (Tetrahedron.depth tetra)) + 1) by lia.
    apply Hcount; [|lia].
    intros a Ha. change (Tetrahedron.elements a) with (Tetrahedron.childTetrahedra true a).
    rewrite childTetrahedra_inner by lia. reflexivity.
  - pose proof (meshes_tree Torus.elements Torus.depth Hleaf childTori_depth 4) as Hcount.
    replace (Torus.depth torus + 1) with (Z.of_nat (Z.to_nat (Torus.depth torus)) + 1) by lia.
    apply Hcount; [|lia].
    intros a Ha. change (Torus.elements a) with (map Torus.props (Torus.childTori true a)).
    rewrite childTori_inner by lia. reflexivity.
Qed.

Lemma mesh_counts_witness :
  Z.of_nat (Scene.meshes (Cube.tree Cube.defaults)) = 8421 /\
  Z.of_nat (Scene.meshes (Tetrahedron.tree Tetrahedron.defaults)) = 341 /\
  Z.of_nat (Scene.meshes (Torus.tree Torus.defaults)) = 5461.
Proof.
  destruct (mesh_counts Cube.defaults Tetrahedron.defaults Torus.defaults
              ltac:(cbn; lia) ltac:(cbn; lia) ltac:(cbn; lia)) as (Hc & Ht & Hr).
  change (Cube.depth Cube.defaults) with 3 in Hc.
  change (Tetrahedron.depth Tetrahedron.defaults) with 4 in Ht.
  change (Torus.depth Torus.defaults) with 6 in Hr.
  change (20 ^ (3 + 1)) with 160000 in Hc.
  change (4 ^ (4 + 1)) with 1024 in Ht.
  change (4 ^ (6 + 1)) with 16384 in Hr.
  lia.
Defined.

(** ** Sizes and positions *)

(** X9. The size of a node depends on its level alone: [k] levels down, a
    cube has edge [size / 3^k] and a tetrahedron [size / 2^k]; a torus
    [k >= 1] levels down has major radius [2 * tubeRadius / π^k], where
    [size] and [tubeRadius] are those of the root. *)
Theorem sizes_by_level
  (cube : Cube.Props) (tetra : Tetrahedron.Props) (torus : Torus.Props) (k : nat)
  (c : Solid.Tree Cube.Props) (t : Solid.Tree Tetrahedron.Props)
  (r : Solid.Tree Torus.Props) :
  Solid.at_level k (Cube.tree cube) c ->
  Solid.at_level k (Tetrahedron.tree tetra) t ->
  Solid.at_level (S k) (Torus.tree torus) r ->
  Cube.size (Solid.root c) = (Cube.size cube / 3 ^ k)%R /\
  Tetrahedron.size (Solid.root t) = (Tetrahedron.size tetra / 2 ^ k)%R /\
  Torus.radius (Solid.root r) = (2 * Torus.tubeRadius torus / PI ^ S k)%R.
Proof.
  intros Hc Ht Hr. pose proof PI_RGT_0 as Hpi. split; [|split].
  - apply (at_level_invariant Cube.elements Cube.depth childCubes_leaf childCubes_depth
             (fun j a b => Cube.size b = (Cube.size a / 3 ^ j)%R) cube); [cbn; lra | | exact Hc].
    intros j b x Hb Hx. apply childCubes_child in Hx as (_ & x0 & y0 & z0 & _ & ->).
    destruct (child_fields b x0 y0 z0) as (_ & -> & _). rewrite Hb.
    cbn [pow]. field. apply pow_nonzero. lra.
  - apply (at_level_invariant Tetrahedron.elements Tetrahedron.depth
             childTetrahedra_leaf childTetrahedra_depth
             (fun j a b => Tetrahedron.size b = (Tetrahedron.size a / 2 ^ j)%R) tetra);
      [cbn; lra | | exact Ht].
    intros j b x Hb Hx. apply childTetrahedra_child in Hx as (_ & i & _ & ->).
    cbn [Tetrahedron.child Tetrahedron.size]. rewrite Hb.
    cbn [pow]. field. apply pow_nonzero. lra.
  - assert (Hleaf : forall a, Torus.depth a <= 0 -> map Torus.props (Torus.childTori true a) = [])
      by (intros a Ha; now rewrite childTori_leaf).
    pose (R := fun (j : nat) (a b : Torus.Props) =>
      match j with
      | O => b = a
      | S j' => Torus.radius b = (2 * Torus.tubeRadius a / PI ^ S j')%R /\
                Torus.tubeRadius b = (Torus.radius b / 2)%R
      end).
    assert (Hstep : forall j b x, R j torus b -> In x (Torus.elements b) -> R (S j) torus x).
    { intros j b x Hb Hx. apply childTori_child in Hx as (_ & i & _ & ->).
      destruct (child_props b i) as (Hrad & Htube & _). split; [|exact Htube].
      rewrite Hrad. destruct j as [|j].
      - cbn in Hb. subst b. cbn [pow]. field. lra.
      - destruct Hb as [Hb1 Hb2]. rewrite Hb2, Hb1. cbn [pow]. field.
        split; [apply pow_nonzero|]; lra. }
    exact (proj1 (at_level_invariant Torus.elements Torus.depth Hleaf childTori_depth
                    R torus eq_refl Hstep (S k) r Hr)).
Qed.

Lemma sizes_by_level_witness :
  Cube.size (Solid.root (Cube.tree Cube.defaults)) = (3 / 3 ^ 0)%R /\
  Tetrahedron.size (Solid.root (Tetrahedron.tree Tetrahedron.defaults)) = (5 / 2 ^ 0)%R /\
  Torus.radius (Solid.root (Torus.tree (Torus.props (Torus.child Torus.defaults 0))))
  = (2 * 2 / PI ^ 1)%R.
Proof.
  apply (sizes_by_level Cube.defaults Tetrahedron.defaults Torus.defaults 0).
  - constructor.
  - constructor.
  - unfold Torus.tree at 1.
    rewrite (tree_unfold Torus.elements Torus.depth
               (fun a Ha => eq_trans (f_equal (map Torus.props) (childTori_leaf a Ha)) eq_refl)
               childTori_depth Torus.defaults).
    apply Solid.at_level_child
      with (c := Torus.tree (Torus.props (Torus.child Torus.defaults 0)));
      [left; reflexivity | constructor].
Defined.




(** X12. Every child group of a torus sits on the parent's major circle, in
    the parent's plane: its distance from the parent's position is the
    parent's radius and its third coordinate is the parent's.  The child
    torus itself is at the origin of its group, and every torus below the
    root keeps the ratio 1:2 of tube radius to major radius, whatever the
    root's ratio is. *)
Theorem torus_children_sit_on_the_major_circle
  (p : Torus.Props) (c : Torus.Child)
  (root : Torus.Props) (k : nat) (node : Solid.Tree Torus.Props) :
  In c (Torus.childTori true p) ->
  Solid.at_level (S k) (Torus.tree root) node ->
  (((Torus.group_position c).1.1 - (Torus.position p).1.1) ^ 2
   + ((Torus.group_position c).1.2 - (Torus.position p).1.2) ^ 2
   = Torus.radius p ^ 2)%R /\
  (Torus.group_position c).2 = (Torus.position p).2 /\
  Torus.position (Torus.props c) = (0, 0, 0)%R /\
  Torus.position (Solid.root node) = (0, 0, 0)%R /\
  Torus.tubeRadius (Solid.root node) = (Torus.radius (Solid.root node) / 2)%R.
Proof.
  intros Hc Hat.
  assert (Hchild : exists i, c = Torus.child p i).
  { destruct (Z.lt_ge_cases 0 (Torus.depth p)) as [Hd|Hd].
    - rewrite childTori_inner in Hc by exact Hd.
      destruct Hc as [<-|[<-|[<-|[<-|[]]]]]; eauto.
    - rewrite childTori_leaf in Hc by lia. destruct Hc. }
  destruct Hchild as [i ->].
  assert (Hleaf : forall a, Torus.depth a <= 0 -> map Torus.props (Torus.childTori true a) = [])
    by (intros a Ha; now rewrite childTori_leaf).
  pose (R := fun (j : nat) (a b : Torus.Props) =>
    match j with
    | O => True
    | S _ => Torus.position b = (0, 0, 0)%R /\
             Torus.tubeRadius b = (Torus.radius b / 2)%R
    end).
  assert (Hstep : forall j b x, R j root b -> In x (Torus.elements b) -> R (S j) root x).
  { intros j b x _ Hx. apply childTori_child in Hx as (_ & i' & _ & ->).
    destruct (child_props b i') as (_ & Htube & _). split; [|exact Htube].
    unfold Torus.child. destruct (Torus.position b) as [[b0 b1] b2]. reflexivity. }
  pose proof (at_level_invariant Torus.elements Torus.depth Hleaf childTori_depth
                R root I Hstep (S k) node Hat) as [Hpos Hratio].
  unfold Torus.child. destruct (Torus.position p) as [[p0 p1] p2]. cbn.
  pose proof (sin2_cos2 (IZR i * PI / 2)) as Hunit. unfold Rsqr in Hunit.
  repeat split; try assumption. nra.
Qed.

Lemma torus_children_sit_on_the_major_circle_witness :
  (Torus.group_position (Torus.child Torus.defaults 1)).2 = 0%R /\
  Torus.position (Solid.root (Torus.tree (Torus.props (Torus.child Torus.defaults 0))))
  = (0, 0, 0)%R.
Proof.
  assert (Hc : In (Torus.child Torus.defaults 1) (Torus.childTori true Torus.defaults))
    by (right; left; reflexivity).
  assert (Hat : Solid.at_level 1 (Torus.tree Torus.defaults)
                  (Torus.tree (Torus.props (Torus.child Torus.defaults 0)))).
  { unfold Torus.tree at 1.
    rewrite (tree_unfold Torus.elements Torus.depth
               (fun a Ha => eq_trans (f_equal (map Torus.props) (childTori_leaf a Ha)) eq_refl)
               childTori_depth Torus.defaults).
    apply Solid.at_level_child
      with (c := Torus.tree (Torus.props (Torus.child Torus.defaults 0)));
      [left; reflexivity | constructor]. }
  destruct (torus_children_sit_on_the_major_circle Torus.defaults _ Torus.defaults 0 _ Hc Hat)
    as (_ & Hz & _ & Hpos & _).
  exact (conj Hz Hpos).
Defined.

(** ** Colours in bounds *)

Lemma tetrahedron_palette_in_bounds (k : Z) :
  0 <= k -> Solid.truthy (Tetrahedron.palette k) = true.
Proof.
  intros Hk. unfold Tetrahedron.palette. cbn [length Tetrahedron.DEPTH_COLORS].
  pose proof (Z.rem_bound_pos k 6 Hk ltac:(lia)) as Hrem.
  change (Z.of_nat 6) with 6.
  set (m := Z.rem k 6) in *.
  assert (Hm : m = 0 \/ m = 1 \/ m = 2 \/ m = 3 \/ m = 4 \/ m = 5) by lia.
  destruct Hm as [->|[->|[->|[->|[->| ->]]]]]; reflexivity.
Qed.

(** X13. The colour lookups stay inside the palettes exactly on the depths
    the gallery uses: a cube has a colour if and only if its depth is at
    most 4 (above that [DEPTH_COLORS[colorIndex]] is [undefined]); and when
    the root of a tetrahedron has a depth from 0 to 5, every node of its tree
    has a colour. *)
Theorem colours_are_defined_on_shallow_trees
  (p : Cube.Props) (tetra : Tetrahedron.Props)
  (k : nat) (node : Solid.Tree Tetrahedron.Props) :
  0 <= Tetrahedron.depth tetra <= 5 ->
  Solid.at_level k (Tetrahedron.tree tetra) node ->
  (Cube.color p <> None <-> Cube.depth p <= 4) /\
  Solid.truthy (Tetrahedron.displayColor (Solid.root node)) = true.
Proof.
  intros Hd Hat. split.
  - unfold Cube.color, Cube.colorIndex, JS.index. cbn [length Cube.DEPTH_COLORS].
    change (Z.of_nat 5 - 1) with 4.
    destruct (Z.ltb_spec (Z.min (4 - Cube.depth p) 4) 0) as [Hneg|Hpos].
    + split; [congruence | lia].
    + split; [lia|]. intros _.
      assert (Hi : (Z.to_nat (Z.min (4 - Cube.depth p) 4) < 5)%nat) by lia.
      destruct (lookup_lt_is_Some_2 Cube.DEPTH_COLORS _ Hi) as [c ->]. discriminate.
  - pose (R := fun (j : nat) (a b : Tetrahedron.Props) =>
      Tetrahedron.depth b = Tetrahedron.depth a - Z.of_nat j /\
      (j <> O -> Solid.truthy (Tetrahedron.color b) = true)).
    assert (Hstep : forall j b x,
               R j tetra b -> In x (Tetrahedron.elements b) -> R (S j) tetra x).
    { intros j b x [Hb _] Hx. apply childTetrahedra_child in Hx as (Hpos & i & Hi & ->).
      split; [cbn [Tetrahedron.child Tetrahedron.depth]; lia|]. intros _.
      cbn [Tetrahedron.child Tetrahedron.color].
      apply tetrahedron_palette_in_bounds. lia. }
    assert (Hroot : R O tetra tetra) by (split; [cbn; lia | congruence]).
    destruct (at_level_invariant Tetrahedron.elements Tetrahedron.depth
                childTetrahedra_leaf childTetrahedra_depth R tetra Hroot Hstep k node Hat)
      as [Hdepth Hcolor].
    destruct (tree_levels _ _ childTetrahedra_leaf childTetrahedra_depth
                childTetrahedra_nonempty k tetra node ltac:(lia) Hat) as (Hk & _ & _).
    unfold Tetrahedron.displayColor, Solid.or_else.
    destruct (Solid.truthy (Tetrahedron.color (Solid.root node))) eqn:Hprop.
    + exact Hprop.
    + apply tetrahedron_palette_in_bounds. lia.
Qed.

Lemma colours_are_defined_on_shallow_trees_witness :
  0 <= Tetrahedron.depth Tetrahedron.defaults <= 5 /\
  (Cube.color Cube.defaults <> None <-> Cube.depth Cube.defaults <= 4) /\
  Solid.truthy
    (Tetrahedron.displayColor (Solid.root (Tetrahedron.tree Tetrahedron.defaults))) = true.
Proof.
  assert (H : 0 <= Tetrahedron.depth Tetrahedron.defaults <= 5) by (cbn; lia).
  split; [exact H|].
  exact (colours_are_defined_on_shallow_trees Cube.defaults Tetrahedron.defaults 0
           (Tetrahedron.tree Tetrahedron.defaults) H (Solid.at_level_root _)).
Defined.

(** ** The growth animation *)

(** X14. A solid that is shown grows by 0.05 per frame from 0.001 and is
    clamped at 1: after [n] frames its scale is [min(0.001 + 0.05 n, 1)], so
    it is positive, never above 1, below 1 for the first 19 frames and
    exactly 1 from frame 20 on; a hidden solid keeps its scale. *)
Theorem scale_grows_to_one (n : nat) (scale : R) :
  Growth.scaleAfter n = Rmin (1 / 1000 + INR n * (5 / 100)) 1 /\
  (0 < Growth.scaleAfter n <= 1)%R /\
  ((n < 20)%nat -> (Growth.scaleAfter n < 1)%R) /\
  ((20 <= n)%nat -> Growth.scaleAfter n = 1%R) /\
  Growth.grow false scale = scale.
Proof.
  assert (Hclosed : Growth.scaleAfter n = Rmin (1 / 1000 + INR n * (5 / 100)) 1).
  { induction n as [|n IH].
    - unfold Growth.scaleAfter, Growth.initialScale. cbn [Nat.iter nat_rect INR].
      unfold Rmin. destruct (Rle_dec _ _); lra.
    - unfold Growth.scaleAfter in *. rewrite Nat.iter_succ, IH, S_INR.
      pose proof (pos_INR n) as Hn.
      unfold Growth.grow, Rmin.
      repeat (destruct (Rle_dec _ _) || destruct (Rlt_dec _ _)); lra. }
  split; [exact Hclosed|]. rewrite Hclosed.
  pose proof (pos_INR n) as Hn.
  split; [|split; [|split; [|reflexivity]]].
  - unfold Rmin. destruct (Rle_dec _ _); lra.
  - intros Hlt. assert (Hle : (INR n <= 19)%R).
    { rewrite INR_IZR_INZ. apply IZR_le. lia. }
    unfold Rmin. destruct (Rle_dec _ _); lra.
  - intros Hge. assert (Hle : (20 <= INR n)%R).
    { rewrite INR_IZR_INZ. apply IZR_le. lia. }
    unfold Rmin. destruct (Rle_dec _ _); lra.
Qed.

(** ** Growing grids *)

Lemma liveCells_prefix (width m m' : Z) (generations : list (list Z)) :
  m <= m' ->
  exists more,
    Rule30Instances.liveCells width m' generations
    = Rule30Instances.liveCells width m generations ++ more.
Proof.
  intros Hm. unfold Rule30Instances.liveCells.
  destruct (Z.le_gt_cases m 0) as [Hneg|Hpos].
  - rewrite (seqZ_nil 0 m) by lia. eexists. reflexivity.
  - replace m' with (m + (m' - m)) by lia.
    rewrite seqZ_app by lia. rewrite bind_app. eexists. reflexivity.
Qed.

(** X15. Revealing more rows only appends instances: from one frame to a
    later one [count] cannot decrease, and every slot below the earlier
    [count] holds the same position after both updates, so a cell keeps its
    instance for the rest of the animation. *)
Theorem instances_are_only_appended
  (frame frame' : Z) (mesh : Rule30Instances.InstancedMesh)
  (generations : list (list Z)) (seed : list Z) :
  JS.index generations 0 = Some seed -> frame <= frame' ->
  exists earlier later,
    Rule30Instances.updateCells frame (Some mesh) generations = Some earlier /\
    Rule30Instances.updateCells frame' (Some mesh) generations = Some later /\
    Rule30Instances.count earlier <= Rule30Instances.count later /\
    forall j : nat,
      Z.of_nat j < Rule30Instances.count earlier ->
      Rule30Instances.instanceMatrix earlier !! j
      = Rule30Instances.instanceMatrix later !! j.
Proof.
  intros Hseed Hle.
  destruct (updateCells_slots frame mesh generations seed Hseed)
    as (earlier & Hrun & Hcount & Hlen & Hslots & _).
  destruct (updateCells_slots frame' mesh generations seed Hseed)
    as (later & Hrun' & Hcount' & Hlen' & Hslots' & _).
  cbv zeta in *.
  destruct (liveCells_prefix (Z.of_nat (length seed))
              (Z.min (frame + 1) (Z.of_nat (length generations)))
              (Z.min (frame' + 1) (Z.of_nat (length generations))) generations
              ltac:(lia)) as [more Hmore].
  rewrite Hmore in Hcount', Hslots'.
  exists earlier, later. split; [exact Hrun|]. split; [exact Hrun'|].
  split; [rewrite Hcount, Hcount', length_app; lia|].
  intros j Hj.
  destruct (lookup_lt_is_Some_2
              (Rule30Instances.liveCells (Z.of_nat (length seed))
                 (Z.min (frame + 1) (Z.of_nat (length generations))) generations) j
              ltac:(lia)) as [[y x] Hcell].
  destruct (decide (j < length (Rule30Instances.instanceMatrix mesh))%nat) as [Hin|Hout].
  - rewrite (Hslots j y x Hcell Hin).
    rewrite (Hslots' j y x); [reflexivity | | exact Hin].
    now rewrite lookup_app_l by (eapply lookup_lt_Some; exact Hcell).
  - rewrite !lookup_ge_None_2; [reflexivity | lia | lia].
Qed.

Lemma instances_are_only_appended_witness :
  exists earlier later,
    Rule30Instances.updateCells 0
      (Some (Rule30Instances.mkInstancedMesh 0 (replicate 6 (0, 0, 0)%R)))
      [[0; 1; 0]; [1; 1; 1]] = Some earlier /\
    Rule30Instances.updateCells 1
      (Some (Rule30Instances.mkInstancedMesh 0 (replicate 6 (0, 0, 0)%R)))
      [[0; 1; 0]; [1; 1; 1]] = Some later /\
    Rule30Instances.count earlier <= Rule30Instances.count later.
Proof.
  destruct (instances_are_only_appended 0 1
              (Rule30Instances.mkInstancedMesh 0 (replicate 6 (0, 0, 0)%R))
              [[0; 1; 0]; [1; 1; 1]] [0; 1; 0] eq_refl ltac:(lia))
    as (earlier & later & H1 & H2 & H3 & _).
  exists earlier, later. exact (conj H1 (conj H2 H3)).
Defined.

(** X16. A generation does not depend on how many generations are asked
    for: the rows computed for [g] generations are the first [g] rows
    computed for any larger count, in the array and, byte for byte in the
    red channel, in the texture. *)
Theorem earlier_rows_do_not_depend_on_the_count (width g g' r c : Z) :
  0 < width -> 0 < g -> g <= g' -> 0 <= r < g -> 0 <= c < width ->
  exists shorter longer small large,
    Rule30Visualization.allGenerations width g = JS.Ok shorter /\
    Rule30Visualization.allGenerations width g' = JS.Ok longer /\
    Rule30Texture.createRule30Texture width g = JS.Ok small /\
    Rule30Texture.createRule30Texture width g' = JS.Ok large /\
    JS.index shorter r = JS.index longer r /\
    JS.index shorter r <> None /\
    Rule30Texture.red small r c = Rule30Texture.red large r c /\
    Rule30Texture.red small r c <> None.
Proof.
  intros Hw Hg Hle Hr Hc.
  destruct (createRule30Texture_spec width g Hw Hg) as (d & Hd & _ & Hred).
  destruct (createRule30Texture_spec width g' Hw ltac:(lia)) as (d' & Hd' & _ & Hred').
  exists (Automaton.evolveCellularAutomaton width g),
         (Automaton.evolveCellularAutomaton width g'),
         (Rule30Texture.mkDataTexture d width g), (Rule30Texture.mkDataTexture d' width g').
  split; [now apply allGenerations_spec|].
  split; [apply allGenerations_spec; lia|].
  split; [exact Hd|]. split; [exact Hd'|].
  rewrite !index_evolve by lia. unfold Rule30Texture.red. cbn.
  rewrite Hred, Hred' by lia. repeat split; congruence.
Qed.

Lemma earlier_rows_do_not_depend_on_the_count_witness :
  exists shorter longer small large,
    Rule30Visualization.allGenerations 5 2 = JS.Ok shorter /\
    Rule30Visualization.allGenerations 5 4 = JS.Ok longer /\
    Rule30Texture.createRule30Texture 5 2 = JS.Ok small /\
    Rule30Texture.createRule30Texture 5 4 = JS.Ok large /\
    JS.index shorter 1 = JS.index longer 1 /\
    JS.index shorter 1 <> None /\
    Rule30Texture.red small 1 3 = Rule30Texture.red large 1 3 /\
    Rule30Texture.red small 1 3 <> None.
Proof.
  apply (earlier_rows_do_not_depend_on_the_count 5 2 4 1 3); lia.
Defined.

(** ** The orbital paths *)

Lemma createCurvePath_points (radius : R) (segments : Z) (height turns : R) :
  0 <= segments ->
  FlowPath.createCurvePath radius segments height turns
  = FlowPath.point radius segments height turns <$> seqZ 0 (segments + 1).
Proof.
  intros Hs. unfold FlowPath.createCurvePath.
  pose (P := fun (i : Z) (points : list Vec3) =>
    points = FlowPath.point radius segments height turns <$> seqZ 0 i).
  apply (for_lt_ind P); [lia | reflexivity |].
  intros j points Hj ->. unfold P.
  replace (j + 1) with (Z.of_nat (S (Z.to_nat j))) by lia.
  rewrite seqZ_S, fmap_app, Z2Nat.id by lia. reflexivity.
Qed.

Lemma point_first (radius : R) (segments : Z) (height turns : R) :
  FlowPath.point radius segments height turns 0 = (radius, 0, 0)%R.
Proof.
  unfold FlowPath.point.
  assert (E : (IZR 0 / IZR segments)%R = 0%R) by (unfold Rdiv; lra).
  rewrite E.
  replace (0 * PI * 2 * turns)%R with 0%R by ring.
  replace (0 * PI)%R with 0%R by ring.
  rewrite cos_0, sin_0. f_equal; [f_equal|]; ring.
Qed.

(** X17. For [segments > 0], [createCurvePath] returns [segments + 1]
    points; each lies on the cylinder of the given radius around the
    vertical axis, at a height between 0 and [height] (on the side of
    [height]); the path starts at [(radius, 0, 0)]. *)
Theorem curve_path_winds_on_a_cylinder
  (radius : R) (segments : Z) (height turns : R) (i : nat) (p : Vec3) :
  0 < segments ->
  FlowPath.createCurvePath radius segments height turns !! i = Some p ->
  Z.of_nat (length (FlowPath.createCurvePath radius segments height turns)) = segments + 1 /\
  (p.1.1 ^ 2 + p.2 ^ 2 = radius ^ 2)%R /\
  (0 <= p.1.2 * height <= height * height)%R /\
  FlowPath.createCurvePath radius segments height turns !! 0%nat = Some (radius, 0, 0)%R.
Proof.
  intros Hs Hp. rewrite createCurvePath_points in * by lia.
  assert (Hseg : (0 < IZR segments)%R) by (apply IZR_lt; exact Hs).
  split; [rewrite length_fmap, length_seqZ; lia|].
  rewrite list_lookup_fmap in Hp.
  destruct (seqZ 0 (segments + 1) !! i) as [j|] eqn:Hj; [|discriminate].
  injection Hp as <-. apply lookup_seqZ in Hj as [-> Hi].
  pose proof PI_RGT_0 as Hpi.
  assert (Hon : (let q := FlowPath.point radius segments height turns (0 + Z.of_nat i) in
                 q.1.1 ^ 2 + q.2 ^ 2 = radius ^ 2 /\
                 0 <= q.1.2 * height <= height * height)%R).
  { unfold FlowPath.point. cbn [fst snd].
    set (progress := (IZR (0 + Z.of_nat i) / IZR segments)%R).
    assert (Hprogress : (0 <= progress <= 1)%R).
    { unfold progress. split.
      - apply Rmult_le_pos; [apply IZR_le; lia | left; now apply Rinv_0_lt_compat].
      - apply (Rmult_le_reg_r (IZR segments)); [exact Hseg|].
        unfold Rdiv. rewrite Rmult_assoc, Rinv_l, Rmult_1_r, Rmult_1_l by lra.
        apply IZR_le. lia. }
    assert (Hsin : (0 <= sin (progress * PI) <= 1)%R).
    { split; [apply sin_ge_0; nra | apply SIN_bound]. }
    pose proof (sin2_cos2 (progress * PI * 2 * turns)) as Hunit. unfold Rsqr in Hunit.
    split; [nra | split; nra]. }
  cbv zeta in Hon. destruct Hon as [Hcircle Hheight].
  split; [exact Hcircle | split; [exact Hheight|]].
  rewrite list_lookup_fmap, (lookup_seqZ_lt 0 (segments + 1) 0) by lia.
  change (0 + Z.of_nat 0) with 0. cbn [fmap option_fmap option_map].
  now rewrite point_first.
Qed.

Lemma curve_path_winds_on_a_cylinder_witness :
  Z.of_nat (length (FlowPath.createCurvePath 3 2 1 1)) = 2 + 1 /\
  FlowPath.createCurvePath 3 2 1 1 !! 0%nat = Some (3, 0, 0)%R.
Proof.
  destruct (curve_path_winds_on_a_cylinder 3 2 1 1 0
              (FlowPath.point 3 2 1 1 0) ltac:(lia) eq_refl)
    as (Hlen & _ & _ & Hfirst).
  exact (conj Hlen Hfirst).
Defined.
